(** * shrub: element tree and frame pipeline of [example.cpp]

    A shallow embedding of the element tree ([ElementTree]) and of the
    virtual-frame ring ([Context::begin_frame], [Context::end_frame],
    [c_render]) of [src/example.cpp], with the properties of the design
    document stated over it.

    Conventions.
    - [i32]/[i64]/[int] values are [Z].
    - [f32] values are IEEE binary32 numbers, [spec_float] with
      [prec = 24] and [emax = 128]; [+] on [f32] is [SFadd].
    - The arrays of the tree are raw pointers indexed without any bounds
      check ([elements[i]] is [*(elements + i)]).  They are embedded as
      total stores from slot number to value: the content of a slot that
      was never written is whatever the store holds, and theorems quantify
      over it.  The five link arrays and [positions] are separate stores, as
      [ElementTree::init] allocates them.  Nothing in the source calls
      [ElementTree::init]: in the program itself the six pointers of the
      context's tree are null and the arrays share their memory, so what is
      proved here of the contents of a tree holds for arrays that are
      apart.
    - Calls of imported host functions (WebGL, console, temporary
      allocator) are recorded in a trace of [Effect]s; the value a host
      function returns is an argument of the embedded function. *)

From Stdlib Require Import ZArith List Bool Lia String.
From Stdlib Require Import Floats.SpecFloat.
Import ListNotations.
Local Open Scope Z_scope.

(** ** Scalars and vectors *)

Definition f32 : Type := spec_float.
Definition f32_prec : Z := 24.
Definition f32_emax : Z := 128.

Definition f32_add (a b : f32) : f32 := SFadd f32_prec f32_emax a b.
Definition f32_leb (a b : f32) : bool := SFleb a b.
Definition f32_zero : f32 := S754_zero false.

(** Conversion [int -> float] (round to nearest even); also used for the
    literals with an integral value ([32.f], [128.f], [100.f], ...). *)
Definition f32_of_int (z : Z) : f32 :=
  binary_normalize f32_prec f32_emax z 0 false.

(** A decimal literal [m * 2^e] rounded to binary32. *)
Definition f32_lit (m e : Z) : f32 :=
  binary_normalize f32_prec f32_emax m e false.

(** [f64] timestamps are only stored, never computed with. *)
Definition f64 : Type := spec_float.

(** [oak_math]'s [Vec2] and [Vec4]; [Vec2{}] is the origin and
    [operator+] adds componentwise. *)
Record Vec2 : Type := mkVec2 { vx : f32; vy : f32 }.
Record Vec4 : Type := mkVec4 { cx : f32; cy : f32; cz : f32; cw : f32 }.

Definition Vec2_zero : Vec2 := mkVec2 f32_zero f32_zero.
Definition Vec2_add (a b : Vec2) : Vec2 :=
  mkVec2 (f32_add (vx a) (vx b)) (f32_add (vy a) (vy b)).

(** ** Stores: arrays reached through a raw pointer *)

Definition store (T : Type) : Type := Z -> T.

Definition upd {T : Type} (s : store T) (i : Z) (v : T) : store T :=
  fun j => if Z.eqb j i then v else s j.

(** ** Data model (lines 102-195) *)

Record VirtualFrame : Type := mkVirtualFrame {
  stagingBuffer : Z;
  fence : Z
}.

Inductive EventType : Type := MOUSE_MOVE | MOUSE_DOWN | MOUSE_UP.

Record Event : Type := mkEvent {
  evt_type : EventType;
  evt_x : Z;
  evt_y : Z;
  evt_button : Z
}.

(** [struct ElementIndex { i32 index = 0; }]: the default member
    initialiser is [0], so [ElementIndex{}] and [{}] denote index [0]. *)
Record ElementIndex : Type := mkElementIndex { index : Z }.
Definition ElementIndex_default : ElementIndex := mkElementIndex 0.

Record ElementId : Type := mkElementId { id_value : Z }.

Record ElementPadding : Type := mkElementPadding {
  pad_right : f32;
  pad_top : f32;
  pad_left : f32;
  pad_bottom : f32
}.

Record Element : Type := mkElement {
  elem_id : ElementId;
  pos : Vec2;
  alignment : Vec2;
  extent : Vec2;
  padding : ElementPadding;
  flags : Z
}.

Definition LAYOUT_AXIS_MAJOR_MASK : Z := 0x3.
Definition LAYOUT_AXIS_MINOR_MASK : Z := 0xC.
Definition USE_AUTO_LAYOUT_BIT : Z := 0x10.

Definition Element_from_id (id : ElementId) : Element :=
  mkElement id Vec2_zero Vec2_zero Vec2_zero
    (mkElementPadding f32_zero f32_zero f32_zero f32_zero) 0.

Definition major_axis (e : Element) : Z :=
  Z.land (flags e) LAYOUT_AXIS_MAJOR_MASK.

Definition minor_axis (e : Element) : Z :=
  Z.shiftr (Z.land (flags e) LAYOUT_AXIS_MINOR_MASK) 2.

Definition set_extent (e : Element) (v : Vec2) : Element :=
  mkElement (elem_id e) (pos e) (alignment e) v (padding e) (flags e).

Record ElementConstraints : Type := mkElementConstraints {
  con_index : ElementIndex;
  minExtent : Vec2;
  maxExtent : Vec2
}.

Record ElementTree : Type := mkElementTree {
  elements : store Element;
  parents : store ElementIndex;
  firstChildren : store ElementIndex;
  lastChildren : store ElementIndex;
  siblings : store ElementIndex;
  positions : store Vec2;
  elementCount : Z;
  elementCapacity : Z;
  constraints : store ElementConstraints;
  constraintCount : Z;
  constraintCapacity : Z
}.

(** ** Element tree operations (lines 208-259) *)

Module Tree.

(** [begin_ui]: [elementCount = 0]. *)
Definition begin_ui (t : ElementTree) : ElementTree :=
  mkElementTree (elements t) (parents t) (firstChildren t) (lastChildren t)
    (siblings t) (positions t) 0 (elementCapacity t)
    (constraints t) (constraintCount t) (constraintCapacity t).

Definition with_links (t : ElementTree)
    (fc lc sb : store ElementIndex) : ElementTree :=
  mkElementTree (elements t) (parents t) fc lc sb (positions t)
    (elementCount t) (elementCapacity t)
    (constraints t) (constraintCount t) (constraintCapacity t).

(** [push_element] (lines 217-235).  The slot is [elementCount]; the three
    link slots are assigned [{}]; neither [elementCount] nor
    [elementCapacity] is touched or tested. *)
Definition push_element (t : ElementTree) (parent : ElementIndex)
    (elem : Element) : ElementIndex * ElementTree :=
  let result := mkElementIndex (elementCount t) in
  let t1 :=
    mkElementTree
      (upd (elements t) (index result) elem)
      (upd (parents t) (index result) parent)
      (upd (firstChildren t) (index result) ElementIndex_default)
      (upd (lastChildren t) (index result) ElementIndex_default)
      (upd (siblings t) (index result) ElementIndex_default)
      (positions t) (elementCount t) (elementCapacity t)
      (constraints t) (constraintCount t) (constraintCapacity t) in
  let t2 :=
    if negb (Z.eqb (index parent) (-1)) then
      let sb :=
        if negb (Z.eqb (index (lastChildren t1 (index parent))) (-1))
        then upd (siblings t1) (index (lastChildren t1 (index parent))) result
        else siblings t1 in
      let lc := upd (lastChildren t1) (index parent) result in
      let fc :=
        if Z.eqb (index (firstChildren t1 (index parent))) (-1)
        then upd (firstChildren t1) (index parent) result
        else firstChildren t1 in
      with_links t1 fc lc sb
    else t1 in
  (result, t2).

(** The slots visited by [for (i32 i = 0; i < elementCount; ++i)]. *)
Definition loop_indices (count : Z) : list Z :=
  map Z.of_nat (seq 0 (Z.to_nat count)).

(** [layout] (lines 237-242): a loop over the elements with an empty
    body. *)
Definition layout_body (t : ElementTree) (i : Z) : ElementTree := t.

Definition layout (t : ElementTree) : ElementTree :=
  fold_left layout_body (loop_indices (elementCount t)) t.

(** [transform] (lines 244-255).  [parentExtent] is read and never
    used. *)
Definition with_positions (t : ElementTree) (ps : store Vec2) : ElementTree :=
  mkElementTree (elements t) (parents t) (firstChildren t) (lastChildren t)
    (siblings t) ps (elementCount t) (elementCapacity t)
    (constraints t) (constraintCount t) (constraintCapacity t).

Definition transform_body (t : ElementTree) (i : Z) : ElementTree :=
  let parentOrigin :=
    if negb (Z.eqb (index (parents t i)) (-1))
    then positions t (index (parents t i))
    else Vec2_zero in
  with_positions t (upd (positions t) i (Vec2_add parentOrigin (pos (elements t i)))).

Definition transform (t : ElementTree) : ElementTree :=
  fold_left transform_body (loop_indices (elementCount t)) t.

(** [end_ui]: [layout(); transform();]. *)
Definition end_ui (t : ElementTree) : ElementTree := transform (layout t).

(** [operator[]] (lines 257-259): [elements + index.index].  The pointer
    is the slot of [elements] it designates. *)
Definition ElementPtr : Type := Z.

Definition operator_index (t : ElementTree) (i : ElementIndex) : ElementPtr :=
  index i.

Definition deref (t : ElementTree) (p : ElementPtr) : Element := elements t p.

(** Assignment to [p->extent]. *)
Definition store_extent (t : ElementTree) (p : ElementPtr) (v : Vec2)
    : ElementTree :=
  mkElementTree (upd (elements t) p (set_extent (elements t p) v))
    (parents t) (firstChildren t) (lastChildren t) (siblings t)
    (positions t) (elementCount t) (elementCapacity t)
    (constraints t) (constraintCount t) (constraintCapacity t).

(** A sequence of [push_element] calls; the returned indices are collected
    in call order. *)
Fixpoint push_all (t : ElementTree) (calls : list (ElementIndex * Element))
    : list ElementIndex * ElementTree :=
  match calls with
  | [] => ([], t)
  | (p, e) :: rest =>
      let '(r, t1) := push_element t p e in
      let '(rs, t2) := push_all t1 rest in
      (r :: rs, t2)
  end.

(** Child list of [p]: follow [siblings] from [firstChildren p] until the
    sentinel [-1]; [fuel] bounds the number of links followed. *)
Fixpoint walk_siblings (fuel : nat) (t : ElementTree) (i : Z) : list Z :=
  match fuel with
  | O => []
  | S n => if Z.eqb i (-1) then []
           else i :: walk_siblings n t (index (siblings t i))
  end.

Definition children (fuel : nat) (t : ElementTree) (p : Z) : list Z :=
  walk_siblings fuel t (index (firstChildren t p)).

End Tree.

(** ** Host interface *)

(** Values of [web_gl.h]. *)
Definition GL_COLOR_BUFFER_BIT : Z := 0x00004000.
Definition GL_TRIANGLES : Z := 0x0004.
Definition GL_COPY_READ_BUFFER : Z := 0x8F36.
Definition GL_COPY_WRITE_BUFFER : Z := 0x8F37.
Definition GL_SYNC_GPU_COMMANDS_COMPLETE : Z := 0x9117.
Definition GL_ALREADY_SIGNALED : Z := 0x911A.
Definition GL_TIMEOUT_EXPIRED : Z := 0x911B.
Definition GL_CONDITION_SATISFIED : Z := 0x911C.
Definition GL_WAIT_FAILED : Z := 0x911D.

(** One constructor per imported function the tick calls, with the
    arguments of the call.  [console_log] is what [console_fmt] ends in;
    [temporary_clear] is [temporaryAllocator->clear()]. *)
Inductive Effect : Type :=
| gl_clear_color (r g b a : f32)
| gl_clear (mask : Z)
| gl_bind_buffer (target buffer : Z)
| gl_buffer_sub_data (target offset : Z) (data : list f32) (size : Z)
| gl_copy_buffer_sub_data (readTarget writeTarget readOffset writeOffset size : Z)
| gl_use_program (program : Z)
| gl_draw_arrays (mode first count : Z)
| gl_client_wait_sync (sync flags timeout : Z)
| gl_delete_sync (sync : Z)
| gl_fence_sync (condition flags : Z)
| console_log (msg : string)
| temporary_clear.

Definition is_fence_sync (e : Effect) : bool :=
  match e with gl_fence_sync _ _ => true | _ => false end.

Definition is_buffer_sub_data (e : Effect) : bool :=
  match e with gl_buffer_sub_data _ _ _ _ => true | _ => false end.

Definition is_client_wait_sync (e : Effect) : bool :=
  match e with gl_client_wait_sync _ _ _ => true | _ => false end.

(** ** Context (lines 261-284) *)

Record DrawCommand : Type := mkDrawCommand {
  elementIndex : ElementIndex;
  color : Vec4
}.

(** [events] is [Array<Event, 64>] and [drawCommands] is
    [Vector<DrawCommand>]: a count and the values below it, embedded as
    lists; [clear()] gives the empty list.  The lists carry no capacity:
    [events] has 64 slots and [drawCommands] is reserved for 512 entries
    (line 345) and pushed to without an allocator, and what [oak_util]'s
    [push] does beyond that is not part of this source.  [virtualFrames] is
    [FixedArray<VirtualFrame, 3>], indexed by [virtualFrameIdx]. *)
Record Context : Type := mkContext {
  events : list Event;
  virtualFrames : store VirtualFrame;
  elementTree : ElementTree;
  drawCommands : list DrawCommand;
  virtualFrameIdx : Z;
  geomBuf : Z;
  sceneBuf : Z;
  vao : Z;
  prog : Z
}.

Definition virtualFrames_capacity : Z := 3.

Definition set_events (c : Context) (v : list Event) : Context :=
  mkContext v (virtualFrames c) (elementTree c) (drawCommands c)
    (virtualFrameIdx c) (geomBuf c) (sceneBuf c) (vao c) (prog c).

Definition set_virtualFrames (c : Context) (v : store VirtualFrame) : Context :=
  mkContext (events c) v (elementTree c) (drawCommands c)
    (virtualFrameIdx c) (geomBuf c) (sceneBuf c) (vao c) (prog c).

Definition set_elementTree (c : Context) (v : ElementTree) : Context :=
  mkContext (events c) (virtualFrames c) v (drawCommands c)
    (virtualFrameIdx c) (geomBuf c) (sceneBuf c) (vao c) (prog c).

Definition set_drawCommands (c : Context) (v : list DrawCommand) : Context :=
  mkContext (events c) (virtualFrames c) (elementTree c) v
    (virtualFrameIdx c) (geomBuf c) (sceneBuf c) (vao c) (prog c).

Definition set_virtualFrameIdx (c : Context) (v : Z) : Context :=
  mkContext (events c) (virtualFrames c) (elementTree c) (drawCommands c)
    v (geomBuf c) (sceneBuf c) (vao c) (prog c).

Definition set_fence (f : VirtualFrame) (v : Z) : VirtualFrame :=
  mkVirtualFrame (stagingBuffer f) v.

(** [begin_frame] (lines 374-391).  [wait_result] is the value the host
    returns from [gl_client_wait_sync]; it is read only when the call is
    made. *)
Definition begin_frame (c : Context) (wait_result : Z)
    : bool * Context * list Effect :=
  let frame := virtualFrames c (virtualFrameIdx c) in
  if negb (Z.eqb (fence frame) 0) then
    let wait := gl_client_wait_sync (fence frame) 0 0 in
    if Z.eqb wait_result GL_WAIT_FAILED then
      (false, c, [wait; console_log "Wait failed"])
    else if Z.eqb wait_result GL_TIMEOUT_EXPIRED then
      (false, c, [wait; console_log "Timeout expired"])
    else
      (true,
       set_virtualFrames c
         (upd (virtualFrames c) (virtualFrameIdx c) (set_fence frame 0)),
       [wait; gl_delete_sync (fence frame)])
  else (true, c, []).

(** [end_frame] (lines 393-399).  [new_fence] is the handle the host
    returns from [gl_fence_sync].  The store is total and the cursor a [Z];
    the source indexes an array of 3 frames with an [i64], so this stands
    for the code for a cursor in [0, 3). *)
Definition end_frame (c : Context) (new_fence : Z) : Context * list Effect :=
  let frame := virtualFrames c (virtualFrameIdx c) in
  let c1 :=
    set_virtualFrames c
      (upd (virtualFrames c) (virtualFrameIdx c) (set_fence frame new_fence)) in
  let idx := virtualFrameIdx c1 + 1 in
  let idx := if Z.geb idx virtualFrames_capacity then 0 else idx in
  (set_virtualFrameIdx c1 idx, [gl_fence_sync GL_SYNC_GPU_COMMANDS_COMPLETE 0]).

(** ** The tick (lines 405-531) *)

(** [c_render]'s function-local [static f64 lastTimestamp] lives next to
    the context. *)
Record Program : Type := mkProgram {
  context : Context;
  lastTimestamp : f64
}.

(** [int] arithmetic of [600 - evt.y], reduced to 32 bits. *)
Definition wrap_i32 (z : Z) : Z := (z + 2 ^ 31) mod 2 ^ 32 - 2 ^ 31.

(** Body of the [switch] over the events: only [MOUSE_MOVE] assigns
    [mouseX] and [mouseY]. *)
Definition event_step (mouse : Z * Z) (evt : Event) : Z * Z :=
  match evt_type evt with
  | MOUSE_MOVE => (evt_x evt, wrap_i32 (600 - evt_y evt))
  | MOUSE_DOWN => mouse
  | MOUSE_UP => mouse
  end.

(** The 36 floats of [push_rectangle]; [sizeof(rectangle)] is 144. *)
Definition rectangle (p e : Vec2) (c : Vec4) : list f32 :=
  let x0 := vx p in
  let y0 := vy p in
  let x1 := f32_add (vx p) (vx e) in
  let y1 := f32_add (vy p) (vy e) in
  [ x0; y0; cx c; cy c; cz c; cw c;
    x1; y0; cx c; cy c; cz c; cw c;
    x1; y1; cx c; cy c; cz c; cw c;
    x1; y1; cx c; cy c; cz c; cw c;
    x0; y1; cx c; cy c; cz c; cw c;
    x0; y0; cx c; cy c; cz c; cw c ].

Definition push_rectangle (offset : Z) (p e : Vec2) (c : Vec4)
    : Z * list Effect :=
  (offset + 144,
   [gl_buffer_sub_data GL_COPY_READ_BUFFER offset (rectangle p e c) 144]).

(** Body of the loop over [drawCommands] (lines 498-503). *)
Definition draw_step (t : ElementTree) (acc : Z * list Effect)
    (cmd : DrawCommand) : Z * list Effect :=
  let '(offset, tr) := acc in
  let '(offset', tr') :=
    push_rectangle offset
      (positions t (index (elementIndex cmd)))
      (extent (elements t (index (elementIndex cmd))))
      (color cmd) in
  (offset', tr ++ tr').

(** The two colours of lines 478 and 480: [{0.1f, 0.2f, 0.9f, 1.f}] and
    [{1.f}]. *)
Definition color_hover : Vec4 :=
  mkVec4 (f32_lit 13421773 (-27)) (f32_lit 13421773 (-26))
         (f32_lit 15099494 (-24)) (f32_of_int 1).
Definition color_plain : Vec4 :=
  mkVec4 (f32_of_int 1) f32_zero f32_zero f32_zero.

(** [push(&context->events, e)]. *)
Definition push_event (p : Program) (e : Event) : Program :=
  mkProgram (set_events (context p) (events (context p) ++ [e]))
    (lastTimestamp p).

Definition handle_mousemove (p : Program) (x y : Z) : Program :=
  push_event p (mkEvent MOUSE_MOVE x y (-1)).
Definition handle_mousedown (p : Program) (button : Z) : Program :=
  push_event p (mkEvent MOUSE_DOWN 0 0 button).
Definition handle_mouseup (p : Program) (button : Z) : Program :=
  push_event p (mkEvent MOUSE_UP 0 0 button).

Section Render.

(** The two [new_id()] values of lines 450 and 451 (hashes of the line
    number and the file name) and [oak_math]'s [rotate]. *)
Variable windowId otherId : ElementId.
Variable rotate : Vec2 -> f64 -> Vec2.

Definition triangle (timestamp : f64) : list f32 :=
  let v0 := rotate (mkVec2 (f32_of_int (-10)) (f32_of_int (-10))) timestamp in
  let v1 := rotate (mkVec2 (f32_of_int 10) (f32_of_int (-10))) timestamp in
  let v2 := rotate (mkVec2 f32_zero (f32_of_int 10)) timestamp in
  let c := f32_of_int 100 in
  let one := f32_of_int 1 in
  [ f32_add c (vx v0); f32_add c (vy v0); one; f32_zero; one; one;
    f32_add c (vx v1); f32_add c (vy v1); f32_zero; one; one; one;
    f32_add c (vx v2); f32_add c (vy v2); f32_zero; f32_zero; one; one ].

(** Lines 448-454: the window, its child, the child's extent, then
    layout and transform.  The result is [otherElem] and the tree.  The
    stores of the tree are taken apart from one another (see the
    conventions at the top). *)
Definition build_ui (t : ElementTree) : ElementIndex * ElementTree :=
  let t := Tree.begin_ui t in
  let '(windowElem, t) :=
    Tree.push_element t (mkElementIndex (-1)) (Element_from_id windowId) in
  let '(otherElem, t) :=
    Tree.push_element t windowElem (Element_from_id otherId) in
  let t :=
    Tree.store_extent t (Tree.operator_index t otherElem)
      (mkVec2 (f32_of_int 32) (f32_of_int 128)) in
  (otherElem, Tree.end_ui t).

(** Lines 470-481: the hit test against [otherElem] chooses the colour of
    the one draw command of the tick. *)
Definition draw_command (t : ElementTree) (otherElem : ElementIndex)
    (mouse : Z * Z) : DrawCommand :=
  let '(mouseX, mouseY) := mouse in
  let other := elements t (index otherElem) in
  let hit :=
    f32_leb (vx (pos other)) (f32_of_int mouseX)
    && f32_leb (f32_of_int mouseX) (f32_add (vx (pos other)) (vx (extent other)))
    && f32_leb (vy (pos other)) (f32_of_int mouseY)
    && f32_leb (f32_of_int mouseY) (f32_add (vy (pos other)) (vy (extent other))) in
  if hit then mkDrawCommand otherElem color_hover
  else mkDrawCommand otherElem color_plain.

(** Lines 448-481, everything between the test of the event count and
    [begin_frame]: the tree is rebuilt, the events are read and cleared,
    one draw command is pushed.  [mouse0] is the indeterminate initial
    value of the locals [mouseX], [mouseY]. *)
Definition prepare (ctx : Context) (mouse0 : Z * Z) : Context :=
  let '(otherElem, t) := build_ui (elementTree ctx) in
  let mouse := fold_left event_step (events ctx) mouse0 in
  let ctx := set_events (set_elementTree ctx t) [] in
  set_drawCommands ctx (drawCommands ctx ++ [draw_command t otherElem mouse]).

(** Lines 488-526: the geometry of the draw commands and of the triangle
    is written to the staging buffer of the current frame, copied and
    drawn; [drawCommands] is cleared after the loop over it. *)
Definition emit_geometry (ctx : Context) (timestamp : f64)
    : Context * list Effect :=
  let frame := virtualFrames ctx (virtualFrameIdx ctx) in
  let tr_setup :=
    [ gl_clear_color (f32_lit 13421773 (-26)) (f32_lit 13421773 (-26))
        (f32_lit 13421773 (-26)) (f32_of_int 1);
      gl_clear GL_COLOR_BUFFER_BIT;
      gl_bind_buffer GL_COPY_READ_BUFFER (stagingBuffer frame);
      gl_bind_buffer GL_COPY_WRITE_BUFFER (geomBuf ctx) ] in
  let '(offset, tr_rects) :=
    fold_left (draw_step (elementTree ctx)) (drawCommands ctx) (0, []) in
  let ctx := set_drawCommands ctx [] in
  let tr_triangle :=
    [ gl_buffer_sub_data GL_COPY_READ_BUFFER offset (triangle timestamp) 72 ] in
  let offset := offset + 72 in
  let tr_draw :=
    [ gl_copy_buffer_sub_data GL_COPY_READ_BUFFER GL_COPY_WRITE_BUFFER 0 0 offset;
      gl_use_program (prog ctx);
      gl_draw_arrays GL_TRIANGLES 0 (Z.quot offset 24) ] in
  (ctx, tr_setup ++ tr_rects ++ tr_triangle ++ tr_draw).

(** [c_render] (lines 434-531).  [wait_result] and [new_fence] are the
    host's answers to [gl_client_wait_sync] and [gl_fence_sync].  [dt] is
    computed and discarded ([(void)dt]); [lastTimestamp] is assigned before
    the event count is tested. *)
Definition c_render (p : Program) (timestamp : f64) (mouse0 : Z * Z)
    (wait_result new_fence : Z) : Program * list Effect :=
  let ctx := context p in
  if Z.eqb (Z.of_nat (List.length (events ctx))) 0 then
    (mkProgram ctx timestamp, [])
  else
    let ctx := prepare ctx mouse0 in
    let '(ok, ctx, tr_begin) := begin_frame ctx wait_result in
    if negb ok then
      (mkProgram ctx timestamp, tr_begin)
    else
      let '(ctx, tr_geometry) := emit_geometry ctx timestamp in
      let '(ctx, tr_end) := end_frame ctx new_fence in
      (mkProgram ctx timestamp,
       tr_begin ++ tr_geometry ++ tr_end ++ [temporary_clear]).

(** One display refresh: the input handlers enqueue [tick_events], then
    the host calls [c_render]. *)
Record Tick : Type := mkTick {
  tick_events : list Event;
  tick_timestamp : f64;
  tick_mouse0 : Z * Z;
  tick_wait_result : Z;
  tick_new_fence : Z
}.

Definition tick (p : Program) (k : Tick) : Program * list Effect :=
  c_render (fold_left push_event (tick_events k) p)
    (tick_timestamp k) (tick_mouse0 k) (tick_wait_result k) (tick_new_fence k).

Fixpoint run_ticks (p : Program) (ks : list Tick) : Program * list (list Effect) :=
  match ks with
  | [] => (p, [])
  | k :: rest =>
      let '(p1, tr) := tick p k in
      let '(p2, trs) := run_ticks p1 rest in
      (p2, tr :: trs)
  end.

(** A tick submitted a frame when its trace holds the [gl_fence_sync] of
    [end_frame]; it wrote geometry when it holds a [gl_buffer_sub_data]. *)
Definition submitted (tr : list Effect) : bool := existsb is_fence_sync tr.
Definition wrote_geometry (tr : list Effect) : bool :=
  existsb is_buffer_sub_data tr.

End Render.

(** ** What the design document asks of the failure paths

    The document gives [append] and [lookup] an error result.  These two
    definitions follow its words; they are compared below with
    [Tree.push_element] and [Tree.operator_index]. *)

Inductive TreeError : Type := CapacityExceeded | IndexOutOfRange.


(** "fails ... [IndexOutOfRange] ... if index >= current count". *)
Definition spec_lookup (t : ElementTree) (i : ElementIndex)
    : TreeError + Tree.ElementPtr :=
  if Z.leb (elementCount t) (index i)
  then inl IndexOutOfRange else inr (index i).


(** "a node's index is ... less than the current element count". *)
Definition valid_index (t : ElementTree) (i : ElementIndex) : Prop :=
  0 <= index i < elementCount t.

(** Parents are stored before their children. *)
Definition parents_first (t : ElementTree) : Prop :=
  forall i, 0 <= i < elementCount t -> index (parents t i) < i.

(** The absolute position [transform] assigns to slot [i], read off the
    positions [ps]. *)
Definition placed (t : ElementTree) (ps : store Vec2) (i : Z) : Vec2 :=
  Vec2_add
    (if negb (index (parents t i) =? -1) then ps (index (parents t i))
     else Vec2_zero)
    (pos (elements t i)).

(** An extent lies inside the bounds of a constraint, on both axes. *)
Definition within_constraint (e : Vec2) (c : ElementConstraints) : bool :=
  f32_leb (vx (minExtent c)) (vx e) && f32_leb (vx e) (vx (maxExtent c))
  && f32_leb (vy (minExtent c)) (vy e) && f32_leb (vy e) (vy (maxExtent c)).

(** Constraint slot [k] is in use and targets element [i]. *)
Definition constrains (t : ElementTree) (k i : Z) : Prop :=
  0 <= k < constraintCount t /\ index (con_index (constraints t k)) = i.

(** ** Concrete trees and contexts used in the examples *)

Definition no_index : ElementIndex := mkElementIndex (-1).

Definition blank_tree (count capacity : Z) : ElementTree :=
  mkElementTree
    (fun _ => Element_from_id (mkElementId 0))
    (fun _ => no_index) (fun _ => no_index) (fun _ => no_index)
    (fun _ => no_index) (fun _ => Vec2_zero) count capacity
    (fun _ => mkElementConstraints no_index Vec2_zero Vec2_zero) 0 0.

Definition vec2_of_ints (x y : Z) : Vec2 := mkVec2 (f32_of_int x) (f32_of_int y).

Definition element_at (id x y : Z) : Element :=
  mkElement (mkElementId id) (vec2_of_ints x y) Vec2_zero Vec2_zero
    (mkElementPadding f32_zero f32_zero f32_zero f32_zero) 0.

(** A parent at (10,10) in slot 0 and its child with offset (5,5) in
    slot 1. *)
Definition parent_child_tree : ElementTree :=
  mkElementTree
    (fun i => if Z.eqb i 0 then element_at 1 10 10 else element_at 2 5 5)
    (fun i => if Z.eqb i 0 then no_index else mkElementIndex 0)
    (fun _ => no_index) (fun _ => no_index) (fun _ => no_index)
    (fun _ => Vec2_zero) 2 16
    (fun _ => mkElementConstraints no_index Vec2_zero Vec2_zero) 0 0.

(** One element of extent (200,200) with a constraint [maxExtent] =
    (100,100) on its index. *)
Definition constrained_tree : ElementTree :=
  mkElementTree
    (fun _ => set_extent (element_at 1 0 0) (vec2_of_ints 200 200))
    (fun _ => no_index) (fun _ => no_index) (fun _ => no_index)
    (fun _ => no_index) (fun _ => Vec2_zero) 1 16
    (fun _ => mkElementConstraints (mkElementIndex 0) Vec2_zero
                (vec2_of_ints 100 100)) 1 4.

(** A context whose three frames own staging buffers 1, 2, 3 and carry
    the given fences. *)
Definition ring_context (f0 f1 f2 cursor : Z) (evs : list Event)
    (cmds : list DrawCommand) : Context :=
  mkContext evs
    (fun i => if Z.eqb i 0 then mkVirtualFrame 1 f0
              else if Z.eqb i 1 then mkVirtualFrame 2 f1
              else mkVirtualFrame 3 f2)
    (blank_tree 0 0) cmds cursor 4 5 6 7.

Definition identity_rotate (v : Vec2) (angle : f64) : Vec2 := v.

(** ** Freestanding runtime (lines 28-85)

    Linear memory is a store of bytes, each a number in [0, 256);
    addresses and sizes are [Z].  [static_cast<char>(c)] keeps the low
    eight bits of [c]. *)

Definition Memory : Type := store Z.

Definition byte_of_int (c : Z) : Z := c mod 256.

(** [memset] (lines 28-33): returns [s]. *)
Definition memset_body (s c : Z) (mem : Memory) (i : Z) : Memory :=
  upd mem (s + i) (byte_of_int c).

Definition memset (mem : Memory) (s c n : Z) : Z * Memory :=
  (s, fold_left (memset_body s c) (Tree.loop_indices n) mem).

(** [memcpy] (lines 35-40): a forward byte loop; returns [dest]. *)
Definition memcpy_body (dest src : Z) (mem : Memory) (i : Z) : Memory :=
  upd mem (dest + i) (mem (src + i)).

Definition memcpy (mem : Memory) (dest src n : Z) : Z * Memory :=
  (dest, fold_left (memcpy_body dest src) (Tree.loop_indices n) mem).

(** [#define WASM_PAGE_SIZE (64 << 10)]. *)
Definition WASM_PAGE_SIZE : Z := Z.shiftl 64 10.


(** The static [heapPtr] and the arguments of the [grow_memory] calls made
    so far. *)
Record Heap : Type := mkHeap {
  heapPtr : Z;
  grown : list Z
}.

Section Allocator.

(** [oak_util]'s [align(size, alignment)]. *)
Variable align : Z -> Z -> Z.

(** [virtual_alloc_freestanding] (lines 52-61). *)
Definition virtual_alloc_freestanding (h : Heap) (size : Z) : Z * Heap :=
  let alignedSize := align size WASM_PAGE_SIZE in
  let result := heapPtr h in
  (result,
   mkHeap (heapPtr h + alignedSize)
     (grown h ++ [Z.quot alignedSize WASM_PAGE_SIZE])).

(** [virtual_try_grow_freestanding], [virtual_free_freestanding],
    [commit_region_freestanding], [decommit_region_freestanding]
    (lines 63-85) ignore their arguments. *)
Definition virtual_try_grow_freestanding (h : Heap) (addr size nSize : Z)
    : bool * Heap := (false, h).
Definition virtual_free_freestanding (h : Heap) (addr size : Z) : Heap := h.
Definition commit_region_freestanding (h : Heap) (addr size : Z) : Z * Heap :=
  (0, h).
Definition decommit_region_freestanding (h : Heap) (addr size : Z) : Z * Heap :=
  (0, h).

(** A run of allocator calls; the pointers handed out are collected. *)
Inductive HeapCall : Type :=
| call_alloc (size : Z)
| call_free (addr size : Z)
| call_try_grow (addr size nSize : Z).

Fixpoint run_heap (h : Heap) (calls : list HeapCall) : list (Z * Z) * Heap :=
  match calls with
  | [] => ([], h)
  | call_alloc size :: rest =>
      let '(ptr, h1) := virtual_alloc_freestanding h size in
      let '(blocks, h2) := run_heap h1 rest in
      ((ptr, size) :: blocks, h2)
  | call_free addr size :: rest =>
      run_heap (virtual_free_freestanding h addr size) rest
  | call_try_grow addr size nSize :: rest =>
      run_heap (snd (virtual_try_grow_freestanding h addr size nSize)) rest
  end.

End Allocator.



(** ** Vocabulary of the tree properties *)

(** Every parent index of a stored element is -1 or a smaller slot. *)
Definition well_parented (t : ElementTree) : Prop :=
  forall i, 0 <= i < elementCount t ->
    index (parents t i) = -1 \/ 0 <= index (parents t i) < i.

(** Two trees that differ at most in [positions]. *)
Definition same_but_positions (t u : ElementTree) : Prop :=
  elements t = elements u /\ parents t = parents u
  /\ elementCount t = elementCount u.

(** ** Vocabulary of the tick properties *)

Definition is_mouse_move (e : Event) : bool :=
  match evt_type e with MOUSE_MOVE => true | _ => false end.

(** The most recent [MOUSE_MOVE] of a queue, if it has one. *)
Definition last_mouse_move (evs : list Event) : option Event :=
  find is_mouse_move (rev evs).

(** The box [0, 32] x [0, 128] in the integer coordinates of [mouseX],
    [mouseY]. *)
Definition in_box (mouse : Z * Z) : bool :=
  (0 <=? fst mouse) && (fst mouse <=? 32)
  && (0 <=? snd mouse) && (snd mouse <=? 128).

(** The comparisons of lines 471-476 along one axis, for an element at 0
    with extent [ext]. *)
Definition axis_hit (ext m : Z) : bool :=
  f32_leb f32_zero (f32_of_int m)
  && f32_leb (f32_of_int m) (f32_add f32_zero (f32_of_int ext)).

(** The integers from [-n] to [n]. *)
Definition span (n : nat) : list Z :=
  map (fun k => Z.of_nat k - Z.of_nat n) (seq 0 (S (2 * n))).

(** The capacities of the two queues: [Array<Event, 64>] (line 267) and
    [drawCommands.reserve(allocator, 512)] (line 345). *)
Definition events_capacity : nat := 64.
Definition drawCommands_reserve : nat := 512.

(** [otherElem] as [c_render] stores it: a fresh element with extent
    (32, 128). *)
Definition other_element (otherId : ElementId) : Element :=
  set_extent (Element_from_id otherId) (mkVec2 (f32_of_int 32) (f32_of_int 128)).

(** ** Vocabulary of the frame ring *)

Definition cursor (p : Program) : Z := virtualFrameIdx (context p).

Definition frame_at (p : Program) (i : Z) : VirtualFrame :=
  virtualFrames (context p) i.

(** Between [p] and [p'] exactly frame [j] was armed, with fence [f]: its
    staging buffer is kept, every other frame is as it was. *)
Definition armed_only (p p' : Program) (j f : Z) : Prop :=
  fence (frame_at p' j) = f
  /\ stagingBuffer (frame_at p' j) = stagingBuffer (frame_at p j)
  /\ forall i, i <> j -> frame_at p' i = frame_at p i.

(** The poll of [begin_frame] on fence [s]: flags 0, timeout 0. *)
Definition poll (s : Z) : Effect := gl_client_wait_sync s 0 0.

(** Stand-ins for the two [new_id()] hashes, a program whose context is a
    [ring_context], a mouse-move event and ticks that carry it. *)
Definition window_id : ElementId := mkElementId 450.
Definition other_id : ElementId := mkElementId 451.

Definition ring_program (f0 f1 f2 cursor : Z) (evs : list Event)
    (cmds : list DrawCommand) : Program :=
  mkProgram (ring_context f0 f1 f2 cursor evs cmds) f32_zero.

Definition move_event : Event := mkEvent MOUSE_MOVE 10 20 (-1).

Definition move_tick (wait_result new_fence : Z) : Tick :=
  mkTick [move_event] f32_zero (0, 0) wait_result new_fence.

Definition quiet_tick : Tick :=
  mkTick [] f32_zero (0, 0) GL_ALREADY_SIGNALED 99.

(** * Properties *)

Lemma upd_same {T : Type} (s : store T) (i : Z) (v : T) : upd s i v i = v.
Proof. unfold upd. now rewrite Z.eqb_refl. Qed.

Lemma upd_other {T : Type} (s : store T) (i j : Z) (v : T) :
  j <> i -> upd s i v j = s j.
Proof. intros H. unfold upd. apply Z.eqb_neq in H. now rewrite H. Qed.

(** ** Appending *)

Lemma push_element_result (t : ElementTree) (p : ElementIndex) (e : Element) :
  fst (Tree.push_element t p e) = mkElementIndex (elementCount t).
Proof. reflexivity. Qed.

Lemma push_element_count (t : ElementTree) (p : ElementIndex) (e : Element) :
  elementCount (snd (Tree.push_element t p e)) = elementCount t.
Proof.
  unfold Tree.push_element; cbn [snd].
  destruct (negb (index p =? -1)); reflexivity.
Qed.




Lemma push_all_count (calls : list (ElementIndex * Element)) (t : ElementTree) :
  elementCount (snd (Tree.push_all t calls)) = elementCount t.
Proof.
  revert t. induction calls as [|[p e] rest IH]; intros t; [reflexivity|].
  cbn [Tree.push_all].
  destruct (Tree.push_element t p e) as [r t1] eqn:E1.
  destruct (Tree.push_all t1 rest) as [rs t2] eqn:E2.
  cbn [snd].
  replace t2 with (snd (Tree.push_all t1 rest)) by now rewrite E2.
  rewrite IH.
  replace t1 with (snd (Tree.push_element t p e)) by now rewrite E1.
  apply push_element_count.
Qed.

Lemma push_all_indices (calls : list (ElementIndex * Element)) (t : ElementTree) :
  Forall (fun r => r = mkElementIndex (elementCount t))
         (fst (Tree.push_all t calls)).
Proof.
  revert t. induction calls as [|[p e] rest IH]; intros t; [constructor|].
  cbn [Tree.push_all].
  destruct (Tree.push_element t p e) as [r t1] eqn:E1.
  destruct (Tree.push_all t1 rest) as [rs t2] eqn:E2.
  cbn [fst]. constructor.
  - change r with (fst (r, t1)). rewrite <- E1. apply push_element_result.
  - specialize (IH t1). rewrite E2 in IH. cbn [fst] in IH.
    replace (elementCount t) with (elementCount t1); [exact IH|].
    replace t1 with (snd (Tree.push_element t p e)) by now rewrite E1.
    apply push_element_count.
Qed.

(** C1 (evaluation of the code; the claim does not hold on it).
    [push_element] never advances [elementCount]: in every sequence of
    appends after [begin_ui], each call returns index 0 and the count is
    still 0 afterwards.  So the second append returns 0 where the claim says
    1, the count is not the number of appends, and no returned index is
    below the count. *)
Theorem push_element_never_advances_count :
  forall (t : ElementTree) (calls : list (ElementIndex * Element)),
    let out := Tree.push_all (Tree.begin_ui t) calls in
    Forall (fun r => index r = 0) (fst out)
    /\ elementCount (snd out) = 0
    /\ Forall (fun r => ~ valid_index (snd out) r) (fst out).
Proof.
  intros t calls out.
  assert (Hc : elementCount (snd out) = 0).
  { unfold out. rewrite push_all_count. reflexivity. }
  assert (Hi : Forall (fun r => index r = 0) (fst out)).
  { unfold out. eapply Forall_impl; [|apply push_all_indices].
    intros r ->. reflexivity. }
  repeat split; trivial.
  eapply Forall_impl; [|exact Hi].
  intros r Hr [_ Hlt]. rewrite Hc, Hr in Hlt. lia.
Qed.

(** The window and its child, as [c_render] builds them: both calls store
    into slot 0, the second element replaces the first. *)
Example push_twice_overwrites :
  let t0 := Tree.begin_ui (blank_tree 5 16) in
  let '(r1, t1) := Tree.push_element t0 no_index (element_at 1 10 10) in
  let '(r2, t2) := Tree.push_element t1 r1 (element_at 2 5 5) in
  index r1 = 0 /\ index r2 = 0 /\ elementCount t2 = 0
  /\ elements t2 0 = element_at 2 5 5.
Proof. vm_compute. repeat split; reflexivity. Qed.

(** C2 (evaluation of the code; the claim does not hold on it).  The three
    link slots of a new element are assigned [ElementIndex{}], whose index
    is 0 and not the sentinel -1.  For a root appended at any slot the links
    read 0 afterwards.  After the root and then a child of the root are
    appended to a reset tree, [firstChildren[0]] and [siblings[0]] are 0, so
    following the child list of the root from [firstChildren] through
    [siblings] never meets -1: whatever the number of links followed, it
    yields slot 0 again and again instead of the one appended child. *)
Theorem push_element_links_default_to_zero :
  (forall (t : ElementTree) (e : Element),
      let t' := snd (Tree.push_element t no_index e) in
      index (firstChildren t' (elementCount t)) = 0
      /\ index (lastChildren t' (elementCount t)) = 0
      /\ index (siblings t' (elementCount t)) = 0)
  /\ (forall (t : ElementTree) (a b : Element) (fuel : nat),
      let t0 := Tree.begin_ui t in
      let t1 := snd (Tree.push_element t0 no_index a) in
      let r1 := fst (Tree.push_element t0 no_index a) in
      let t2 := snd (Tree.push_element t1 r1 b) in
      index (firstChildren t2 0) = 0
      /\ index (siblings t2 0) = 0
      /\ Tree.children fuel t2 0 = repeat 0 fuel).
Proof.
  split.
  - intros t e. cbn. rewrite !upd_same. cbn. auto.
  - intros t a b fuel t0 t1 r1 t2.
    assert (Hf : index (firstChildren t2 0) = 0) by reflexivity.
    assert (Hs : index (siblings t2 0) = 0) by reflexivity.
    repeat split; trivial.
    unfold Tree.children. rewrite Hf.
    induction fuel as [|n IH]; [reflexivity|].
    cbn [Tree.walk_siblings repeat].
    change (0 =? -1) with false. cbn iota.
    rewrite Hs. now rewrite IH.
Qed.

(** The same with a count that is already 1: a child appended at slot 1
    under slot 0 does not become [firstChildren[0]], which keeps the 0 it
    was assigned when slot 0 was appended. *)
Example first_child_not_linked :
  let t0 := snd (Tree.push_element (blank_tree 0 16) no_index (element_at 1 10 10)) in
  let t1 := mkElementTree (elements t0) (parents t0) (firstChildren t0)
              (lastChildren t0) (siblings t0) (positions t0) 1 16
              (constraints t0) 0 0 in
  let '(r, t2) := Tree.push_element t1 (mkElementIndex 0) (element_at 2 5 5) in
  index r = 1 /\ index (firstChildren t2 0) = 0 /\ index (lastChildren t2 0) = 1
  /\ Tree.children 4 t2 0 = [0; 1; 0; 1].
Proof. vm_compute. repeat split; reflexivity. Qed.

(** ** Capacity *)




(** ** Lookup *)

(** C9 (counterexample).  [c_render] itself looks up [otherElem], whose
    index 0 is not below the element count 0: the design document asks for
    [IndexOutOfRange]; [operator[]] yields slot 0, and the assignment
    through it lands there. *)
Lemma operator_index_beyond_count :
  let t := Tree.begin_ui (blank_tree 0 0) in
  let i := mkElementIndex 0 in
  elementCount t <= index i
  /\ spec_lookup t i = inl IndexOutOfRange
  /\ inr (Tree.operator_index t i) <> spec_lookup t i
  /\ Tree.operator_index t i = 0
  /\ extent (elements (Tree.store_extent t (Tree.operator_index t i)
                         (vec2_of_ints 32 128)) 0) = vec2_of_ints 32 128.
Proof.
  cbv zeta. repeat split; try reflexivity; vm_compute; discriminate.
Qed.

(** C9 (amended).  [operator[]] makes no range check: for every index,
    below the element count or at or beyond it, it returns
    [elements + index], the slot of that index, and reads and writes
    through the returned pointer reach that slot and leave every other slot
    alone. *)
Theorem operator_index_unguarded :
  forall (t : ElementTree) (i : ElementIndex) (v : Vec2),
    Tree.operator_index t i = index i
    /\ Tree.deref t (Tree.operator_index t i) = elements t (index i)
    /\ extent (Tree.deref (Tree.store_extent t (Tree.operator_index t i) v)
                 (Tree.operator_index t i)) = v
    /\ (forall j, j <> index i ->
          elements (Tree.store_extent t (Tree.operator_index t i) v) j
          = elements t j).
Proof.
  intros t i v. unfold Tree.operator_index, Tree.deref, Tree.store_extent.
  cbn [elements]. rewrite upd_same.
  repeat split; try reflexivity.
  intros j Hj. now apply upd_other.
Qed.

(** ** Layout *)

Lemma layout_loop (l : list Z) (t : ElementTree) :
  fold_left Tree.layout_body l t = t.
Proof. induction l as [|i l IH]; [reflexivity|]. cbn. exact IH. Qed.

Lemma layout_id (t : ElementTree) : Tree.layout t = t.
Proof. unfold Tree.layout. apply layout_loop. Qed.

(** C8 (counterexample).  An element of extent (200,200) with a constraint
    [maxExtent] = (100,100) on its index: after [layout] the extent is
    still (200,200), outside the bounds of the constraint. *)
Lemma layout_does_not_clamp :
  let t := constrained_tree in
  constrains t 0 0
  /\ extent (elements (Tree.layout t) 0) = vec2_of_ints 200 200
  /\ extent (elements (Tree.layout t) 0) <> vec2_of_ints 100 100
  /\ within_constraint (extent (elements (Tree.layout t) 0)) (constraints t 0)
     = false.
Proof.
  cbv zeta. rewrite layout_id.
  split; [split; [cbn; lia | reflexivity]|].
  split; [reflexivity|].
  split; [vm_compute; discriminate | vm_compute; reflexivity].
Qed.

(** C8 (amended).  [layout] is a loop with an empty body: it leaves every
    tree as it is, so after [layout] the extent of every element is the
    extent it had before, whether or not a constraint targets its index. *)
Theorem layout_changes_nothing :
  forall (t : ElementTree),
    Tree.layout t = t
    /\ (forall i, extent (elements (Tree.layout t) i) = extent (elements t i)).
Proof.
  intros t. rewrite layout_id. split; reflexivity.
Qed.

(** ** Transform *)

Lemma loop_indices_succ (n : nat) :
  Tree.loop_indices (Z.of_nat (S n))
  = Tree.loop_indices (Z.of_nat n) ++ [Z.of_nat n].
Proof.
  unfold Tree.loop_indices. rewrite !Nat2Z.id.
  rewrite seq_S, map_app. reflexivity.
Qed.

Lemma transform_body_frame (t : ElementTree) (i : Z) :
  elements (Tree.transform_body t i) = elements t
  /\ parents (Tree.transform_body t i) = parents t
  /\ elementCount (Tree.transform_body t i) = elementCount t.
Proof. repeat split. Qed.

(** Loop invariant of [transform]: after the first [n] iterations the
    slots below [n] are placed, the rest of the tree is as before. *)
Lemma transform_prefix (t : ElementTree) (n : nat) :
  (forall i, 0 <= i < Z.of_nat n -> index (parents t i) < i) ->
  let t' := fold_left Tree.transform_body (Tree.loop_indices (Z.of_nat n)) t in
  elements t' = elements t /\ parents t' = parents t
  /\ elementCount t' = elementCount t
  /\ forall i, 0 <= i < Z.of_nat n -> positions t' i = placed t (positions t') i.
Proof.
  induction n as [|n IH]; intros Hp.
  - cbn. repeat split. intros i Hi. lia.
  - rewrite loop_indices_succ, fold_left_app. cbn [fold_left].
    destruct IH as (He & Hpa & Hc & Hpos).
    { intros i Hi. apply Hp. lia. }
    set (tn := fold_left Tree.transform_body (Tree.loop_indices (Z.of_nat n)) t) in *.
    cbv zeta.
    destruct (transform_body_frame tn (Z.of_nat n)) as (He' & Hpa' & Hc').
    repeat split; try congruence.
    intros i Hi.
    assert (Hlt : index (parents t i) < i) by (apply Hp; lia).
    unfold Tree.transform_body, Tree.with_positions; cbn [positions].
    unfold placed. rewrite (upd_other _ _ (index (parents t i))) by lia.
    destruct (Z.eq_dec i (Z.of_nat n)) as [->|Hne].
    + rewrite upd_same, He, Hpa. reflexivity.
    + rewrite upd_other by exact Hne. rewrite Hpos by lia. reflexivity.
Qed.

(** C7.  In a tree whose parents are stored before their children, after
    [transform] every element with a parent sits at its parent's absolute
    position plus its own offset, and every element whose parent index is
    -1 sits at the origin plus its own offset. *)
Theorem transform_positions :
  forall (t : ElementTree),
    parents_first t ->
    forall i, valid_index (Tree.transform t) (mkElementIndex i) ->
      elements (Tree.transform t) = elements t
      /\ parents (Tree.transform t) = parents t
      /\ (index (parents t i) <> -1 ->
            positions (Tree.transform t) i
            = Vec2_add (positions (Tree.transform t) (index (parents t i)))
                       (pos (elements t i)))
      /\ (index (parents t i) = -1 ->
            positions (Tree.transform t) i
            = Vec2_add Vec2_zero (pos (elements t i))).
Proof.
  intros t Hp i Hi.
  unfold Tree.transform in *.
  assert (Hfold : let t' := fold_left Tree.transform_body
                              (Tree.loop_indices (elementCount t)) t in
            elements t' = elements t /\ parents t' = parents t
            /\ elementCount t' = elementCount t
            /\ forall j, 0 <= j < elementCount t ->
                 positions t' j = placed t (positions t') j).
  { destruct (Z.le_gt_cases 0 (elementCount t)) as [Hn|Hn].
    - pose proof (transform_prefix t (Z.to_nat (elementCount t))) as H.
      rewrite Z2Nat.id in H by exact Hn. apply H.
      intros j Hj. apply Hp. exact Hj.
    - unfold Tree.loop_indices.
      replace (Z.to_nat (elementCount t)) with O by lia.
      cbn. repeat split. intros j Hj. lia. }
  cbv zeta in Hfold. destruct Hfold as (He & Hpa & Hc & Hpos).
  unfold valid_index in Hi. cbn [index] in Hi. rewrite Hc in Hi.
  specialize (Hpos i Hi).
  repeat split; trivial.
  - intros Hne. rewrite Hpos. unfold placed.
    apply Z.eqb_neq in Hne. now rewrite Hne.
  - intros Heq. rewrite Hpos. unfold placed.
    apply Z.eqb_eq in Heq. now rewrite Heq.
Qed.

(** C7, the example of the design document: a parent at (10,10) and its
    child with offset (5,5); the child ends at (15,15). *)
Lemma transform_positions_witness :
  positions (Tree.transform parent_child_tree) 0 = vec2_of_ints 10 10
  /\ positions (Tree.transform parent_child_tree) 1 = vec2_of_ints 15 15.
Proof.
  assert (Hp : parents_first parent_child_tree).
  { intros i Hi. cbn in Hi.
    assert (Hc : i = 0 \/ i = 1) by lia.
    destruct Hc as [->| ->]; cbn; lia. }
  assert (Hv : forall i, 0 <= i < 2 ->
            valid_index (Tree.transform parent_child_tree) (mkElementIndex i)).
  { intros i Hi. unfold valid_index. cbn. exact Hi. }
  destruct (transform_positions parent_child_tree Hp 0 (Hv 0 ltac:(lia)))
    as (_ & _ & _ & Hroot).
  destruct (transform_positions parent_child_tree Hp 1 (Hv 1 ltac:(lia)))
    as (_ & _ & Hchild & _).
  assert (H0 : positions (Tree.transform parent_child_tree) 0 = vec2_of_ints 10 10).
  { rewrite Hroot by reflexivity. vm_compute. reflexivity. }
  split; [exact H0|].
  rewrite Hchild by (cbn; lia).
  change (index (parents parent_child_tree 1)) with 0.
  rewrite H0. vm_compute. reflexivity.
Defined.

(** ** Frame pipeline *)

(** C4.  [begin_frame] by case on the current frame and on the answer of
    the poll.  No fence: true, nothing called, context unchanged.  Fence
    and wait failed: the error is logged, false, context unchanged.  Fence
    and timeout: false, context unchanged, so the fence stays armed.  Fence
    and any other answer (signaled): the fence is deleted, the frame's
    fence is 0, true, and nothing else of the context changes.  Whenever
    the fence is polled the timeout is 0. *)
Theorem begin_frame_cases :
  forall (c : Context) (w : Z),
    let frame := virtualFrames c (virtualFrameIdx c) in
    (fence frame = 0 -> begin_frame c w = (true, c, []))
    /\ (fence frame <> 0 -> w = GL_WAIT_FAILED ->
          begin_frame c w
          = (false, c, [poll (fence frame); console_log "Wait failed"]))
    /\ (fence frame <> 0 -> w = GL_TIMEOUT_EXPIRED ->
          begin_frame c w
          = (false, c, [poll (fence frame); console_log "Timeout expired"]))
    /\ (fence frame <> 0 -> w <> GL_WAIT_FAILED -> w <> GL_TIMEOUT_EXPIRED ->
          exists c',
            begin_frame c w
            = (true, c', [poll (fence frame); gl_delete_sync (fence frame)])
            /\ virtualFrames c' (virtualFrameIdx c)
               = mkVirtualFrame (stagingBuffer frame) 0
            /\ (forall i, i <> virtualFrameIdx c ->
                  virtualFrames c' i = virtualFrames c i)
            /\ virtualFrameIdx c' = virtualFrameIdx c
            /\ events c' = events c
            /\ elementTree c' = elementTree c
            /\ drawCommands c' = drawCommands c)
    /\ (forall s flags timeout,
          In (gl_client_wait_sync s flags timeout) (snd (begin_frame c w)) ->
          timeout = 0).
Proof.
  intros c w frame. unfold begin_frame. fold frame.
  repeat split.
  - intros H. apply Z.eqb_eq in H. now rewrite H.
  - intros H ->. apply Z.eqb_neq in H. now rewrite H.
  - intros H ->. apply Z.eqb_neq in H. now rewrite H.
  - intros H Hf Ht. apply Z.eqb_neq in H, Hf, Ht. rewrite H, Hf, Ht.
    cbn [negb]. eexists. split; [reflexivity|].
    cbn [virtualFrames set_virtualFrames virtualFrameIdx events elementTree
         drawCommands].
    rewrite upd_same. repeat split.
    intros i Hi. now apply upd_other.
  - intros s flags timeout.
    destruct (negb (fence frame =? 0)); [|intros []].
    destruct (w =? GL_WAIT_FAILED); [|destruct (w =? GL_TIMEOUT_EXPIRED)];
      cbn [snd In]; intros [H|[H|[]]]; try discriminate H;
      inversion H; reflexivity.
Qed.

Lemma begin_frame_cases_witness :
  begin_frame (ring_context 9 0 0 0 [] []) GL_TIMEOUT_EXPIRED
  = (false, ring_context 9 0 0 0 [] [],
     [poll 9; console_log "Timeout expired"]).
Proof.
  apply (proj1 (proj2 (proj2
           (begin_frame_cases (ring_context 9 0 0 0 [] []) GL_TIMEOUT_EXPIRED)))).
  - cbn. discriminate.
  - reflexivity.
Defined.

Lemma begin_frame_blocked (c : Context) (w : Z) :
  fence (virtualFrames c (virtualFrameIdx c)) <> 0 ->
  w = GL_TIMEOUT_EXPIRED \/ w = GL_WAIT_FAILED ->
  fst (fst (begin_frame c w)) = false.
Proof.
  intros Hf Hw. unfold begin_frame.
  apply Z.eqb_neq in Hf. rewrite Hf. cbn [negb].
  destruct Hw as [->| ->]; reflexivity.
Qed.

Lemma begin_frame_false (c : Context) (w : Z) :
  fst (fst (begin_frame c w)) = false ->
  snd (fst (begin_frame c w)) = c
  /\ existsb is_fence_sync (snd (begin_frame c w)) = false
  /\ existsb is_buffer_sub_data (snd (begin_frame c w)) = false.
Proof.
  unfold begin_frame.
  destruct (negb (fence (virtualFrames c (virtualFrameIdx c)) =? 0));
    [|discriminate].
  destruct (w =? GL_WAIT_FAILED); [intros _; repeat split|].
  destruct (w =? GL_TIMEOUT_EXPIRED); [intros _; repeat split|discriminate].
Qed.

Lemma begin_frame_true (c : Context) (w : Z) :
  fst (fst (begin_frame c w)) = true ->
  let c' := snd (fst (begin_frame c w)) in
  virtualFrameIdx c' = virtualFrameIdx c
  /\ stagingBuffer (virtualFrames c' (virtualFrameIdx c))
     = stagingBuffer (virtualFrames c (virtualFrameIdx c))
  /\ (forall i, i <> virtualFrameIdx c -> virtualFrames c' i = virtualFrames c i)
  /\ drawCommands c' = drawCommands c
  /\ events c' = events c
  /\ existsb is_fence_sync (snd (begin_frame c w)) = false.
Proof.
  unfold begin_frame.
  destruct (negb (fence (virtualFrames c (virtualFrameIdx c)) =? 0));
    [|intros _; repeat split].
  destruct (w =? GL_WAIT_FAILED); [discriminate|].
  destruct (w =? GL_TIMEOUT_EXPIRED); [discriminate|].
  intros _. cbn [fst snd virtualFrames set_virtualFrames virtualFrameIdx
                 drawCommands events].
  rewrite upd_same. repeat split.
  intros i Hi. now apply upd_other.
Qed.

Lemma end_frame_spec (c : Context) (f : Z) :
  0 <= virtualFrameIdx c < virtualFrames_capacity ->
  let c' := fst (end_frame c f) in
  virtualFrameIdx c' = (virtualFrameIdx c + 1) mod virtualFrames_capacity
  /\ 0 <= virtualFrameIdx c' < virtualFrames_capacity
  /\ virtualFrames c' (virtualFrameIdx c)
     = mkVirtualFrame (stagingBuffer (virtualFrames c (virtualFrameIdx c))) f
  /\ (forall i, i <> virtualFrameIdx c -> virtualFrames c' i = virtualFrames c i)
  /\ drawCommands c' = drawCommands c
  /\ events c' = events c
  /\ snd (end_frame c f) = [gl_fence_sync GL_SYNC_GPU_COMMANDS_COMPLETE 0].
Proof.
  unfold virtualFrames_capacity. intros Hc.
  unfold end_frame, virtualFrames_capacity.
  cbn [fst snd virtualFrames set_virtualFrames set_virtualFrameIdx
       virtualFrameIdx drawCommands events].
  rewrite upd_same.
  assert (Hidx : (if virtualFrameIdx c + 1 >=? 3 then 0 else virtualFrameIdx c + 1)
                 = (virtualFrameIdx c + 1) mod 3).
  { destruct (Z.geb_spec (virtualFrameIdx c + 1) 3) as [H|H].
    - replace (virtualFrameIdx c) with 2 by lia. reflexivity.
    - rewrite Z.mod_small by lia. reflexivity. }
  rewrite Hidx.
  repeat split; try (apply Z.mod_pos_bound; lia).
  intros i Hi. now apply upd_other.
Qed.

(** ** The tick *)

Section TickFacts.

Variable windowId otherId : ElementId.
Variable rotate : Vec2 -> f64 -> Vec2.

Local Abbreviation c_render' := (c_render windowId otherId rotate).
Local Abbreviation prepare' := (prepare windowId otherId).
Local Abbreviation emit_geometry' := (emit_geometry rotate).
Local Abbreviation tick' := (tick windowId otherId rotate).
Local Abbreviation run_ticks' := (run_ticks windowId otherId rotate).

Lemma prepare_facts (ctx : Context) (mouse0 : Z * Z) :
  virtualFrames (prepare' ctx mouse0) = virtualFrames ctx
  /\ virtualFrameIdx (prepare' ctx mouse0) = virtualFrameIdx ctx
  /\ events (prepare' ctx mouse0) = []
  /\ exists cmd, drawCommands (prepare' ctx mouse0) = drawCommands ctx ++ [cmd].
Proof.
  unfold prepare.
  destruct (build_ui windowId otherId (elementTree ctx)) as [otherElem t].
  repeat split. eexists. reflexivity.
Qed.

Lemma draw_loop_no_fence (t : ElementTree) (cmds : list DrawCommand)
    (acc : Z * list Effect) :
  existsb is_fence_sync (snd acc) = false ->
  existsb is_fence_sync (snd (fold_left (draw_step t) cmds acc)) = false.
Proof.
  revert acc. induction cmds as [|cmd rest IH]; intros [offset tr] H; [exact H|].
  cbn [fold_left]. apply IH. cbn [draw_step push_rectangle snd] in *.
  rewrite existsb_app, H. reflexivity.
Qed.

Lemma emit_geometry_facts (ctx : Context) (timestamp : f64) :
  let out := emit_geometry' ctx timestamp in
  virtualFrames (fst out) = virtualFrames ctx
  /\ virtualFrameIdx (fst out) = virtualFrameIdx ctx
  /\ events (fst out) = events ctx
  /\ drawCommands (fst out) = []
  /\ existsb is_fence_sync (snd out) = false
  /\ existsb is_buffer_sub_data (snd out) = true.
Proof.
  unfold emit_geometry.
  pose proof (draw_loop_no_fence (elementTree ctx) (drawCommands ctx) (0, [])
                eq_refl) as Hloop.
  destruct (fold_left (draw_step (elementTree ctx)) (drawCommands ctx) (0, []))
    as [offset tr_rects].
  cbn [snd] in Hloop. cbv zeta. cbn [fst snd].
  repeat split.
  - cbn [app existsb is_fence_sync orb]. rewrite existsb_app, Hloop. reflexivity.
  - cbn [app existsb is_buffer_sub_data orb]. rewrite existsb_app.
    cbn. apply orb_true_r.
Qed.

(** The three ways through [c_render]. *)
Lemma c_render_cases (p : Program) (timestamp : f64) (mouse0 : Z * Z)
    (w f : Z) :
  let out := c_render' p timestamp mouse0 w f in
  let ready := begin_frame (prepare' (context p) mouse0) w in
  (events (context p) = [] /\ out = (mkProgram (context p) timestamp, []))
  \/ (events (context p) <> [] /\ fst (fst ready) = false
      /\ out = (mkProgram (snd (fst ready)) timestamp, snd ready))
  \/ (events (context p) <> [] /\ fst (fst ready) = true
      /\ let geometry := emit_geometry' (snd (fst ready)) timestamp in
         let ended := end_frame (fst geometry) f in
         out = (mkProgram (fst ended) timestamp,
                snd ready ++ snd geometry ++ snd ended ++ [temporary_clear])).
Proof.
  unfold c_render.
  destruct (events (context p)) as [|e evs] eqn:Hev.
  - left. split; reflexivity.
  - right. cbn [List.length]. 
    replace (Z.of_nat (S (List.length evs)) =? 0) with false
      by (symmetry; apply Z.eqb_neq; lia).
    destruct (begin_frame (prepare windowId otherId (context p) mouse0) w)
      as [[ok c1] tr] eqn:Hb.
    cbn [fst snd]. destruct ok; cbn [negb].
    + right. split; [discriminate|]. split; [reflexivity|].
      destruct (emit_geometry rotate c1 timestamp) as [c2 tg].
      cbn [fst snd]. destruct (end_frame c2 f) as [c3 te]. reflexivity.
    + left. split; [discriminate|]. split; reflexivity.
Qed.

Lemma push_events_frames (evs : list Event) (p : Program) :
  virtualFrames (context (fold_left push_event evs p)) = virtualFrames (context p)
  /\ virtualFrameIdx (context (fold_left push_event evs p))
     = virtualFrameIdx (context p)
  /\ events (context (fold_left push_event evs p)) = events (context p) ++ evs
  /\ drawCommands (context (fold_left push_event evs p))
     = drawCommands (context p).
Proof.
  revert p. induction evs as [|e evs IH]; intros p.
  - cbn. rewrite app_nil_r. repeat split.
  - cbn [fold_left]. destruct (IH (push_event p e)) as (H1 & H2 & H3 & H4).
    rewrite H1, H2, H3, H4. cbn. rewrite <- app_assoc. repeat split.
Qed.

Lemma end_frame_queues (c : Context) (f : Z) :
  events (fst (end_frame c f)) = events c
  /\ drawCommands (fst (end_frame c f)) = drawCommands c.
Proof. split; reflexivity. Qed.

(** C5 (evaluation of the code; the claim holds except for the draw
    command queue).  In a tick that has events and whose [begin_frame]
    returns false (the current fence is armed and the poll answers timeout or
    wait-failed) no geometry is written, [end_frame] is not reached, the
    cursor and the frames are as before and the event queue is empty; but
    the draw command pushed by this tick is still in [drawCommands], behind
    whatever the queue held before: the [return] after [begin_frame] comes
    before [drawCommands.clear()]. *)
Theorem skipped_tick_keeps_draw_commands :
  forall (p : Program) (timestamp : f64) (mouse0 : Z * Z) (w f : Z),
    events (context p) <> [] ->
    fence (frame_at p (cursor p)) <> 0 ->
    w = GL_TIMEOUT_EXPIRED \/ w = GL_WAIT_FAILED ->
    let out := c_render' p timestamp mouse0 w f in
    wrote_geometry (snd out) = false
    /\ submitted (snd out) = false
    /\ cursor (fst out) = cursor p
    /\ virtualFrames (context (fst out)) = virtualFrames (context p)
    /\ events (context (fst out)) = []
    /\ (exists cmd,
          drawCommands (context (fst out)) = drawCommands (context p) ++ [cmd])
    /\ drawCommands (context (fst out)) <> [].
Proof.
  intros p timestamp mouse0 w f Hev Hfence Hw out.
  destruct (prepare_facts (context p) mouse0) as (Hvf & Hidx & Hevs & cmd & Hcmd).
  assert (Hready : fst (fst (begin_frame (prepare' (context p) mouse0) w)) = false).
  { apply begin_frame_blocked; [|exact Hw]. rewrite Hvf, Hidx. exact Hfence. }
  destruct (begin_frame_false _ _ Hready) as (Hsame & Hnf & Hnb).
  destruct (c_render_cases p timestamp mouse0 w f) as [[H _]|[(_ & _ & H)|(_ & H & _)]].
  - contradiction.
  - unfold out. rewrite H. cbn [fst snd context]. rewrite Hsame.
    unfold wrote_geometry, submitted, cursor.
    repeat split; trivial.
    + exists cmd. exact Hcmd.
    + rewrite Hcmd. intros Hnil. now destruct (drawCommands (context p)).
  - rewrite Hready in H. discriminate.
Qed.

Lemma tick_submitted (p : Program) (k : Tick) :
  0 <= cursor p < virtualFrames_capacity ->
  submitted (snd (tick' p k)) = true ->
  cursor (fst (tick' p k)) = (cursor p + 1) mod virtualFrames_capacity
  /\ armed_only p (fst (tick' p k)) (cursor p) (tick_new_fence k).
Proof.
  intros Hc. unfold tick, armed_only, frame_at, cursor in *.
  destruct (push_events_frames (tick_events k) p) as (Qvf & Qidx & _ & _).
  generalize dependent (fold_left push_event (tick_events k) p).
  intros q Qvf Qidx.
  destruct (prepare_facts (context q) (tick_mouse0 k))
    as (Pvf & Pidx & _ & _).
  unfold c_render.
  destruct (Z.of_nat (List.length (events (context q))) =? 0); [discriminate|].
  generalize dependent (prepare' (context q) (tick_mouse0 k)).
  intros c0 Pvf Pidx.
  pose proof (begin_frame_true c0 (tick_wait_result k)) as Bt.
  pose proof (begin_frame_false c0 (tick_wait_result k)) as Bf.
  destruct (begin_frame c0 (tick_wait_result k)) as [[ok c1] tr].
  cbn [fst snd] in Bt, Bf.
  destruct ok; cbn [negb].
  2:{ intros Hs. destruct (Bf eq_refl) as (_ & Hnf & _).
      cbn [snd] in Hs. unfold submitted in Hs. congruence. }
  destruct (Bt eq_refl) as (Bidx & Bsb & Boff & _).
  pose proof (emit_geometry_facts c1 (tick_timestamp k)) as G.
  destruct (emit_geometry' c1 (tick_timestamp k)) as [c2 tg].
  cbn [fst snd] in G. destruct G as (Gvf & Gidx & _).
  pose proof (end_frame_spec c2 (tick_new_fence k)) as E.
  destruct (end_frame c2 (tick_new_fence k)) as [c3 te].
  cbn [fst snd context] in *. intros _.
  assert (Hidx2 : virtualFrameIdx c2 = virtualFrameIdx (context p)) by congruence.
  destruct E as (Eidx & _ & Ecur & Eoff & _); [rewrite Hidx2; exact Hc|].
  rewrite Hidx2 in Eidx, Ecur, Eoff.
  rewrite Pidx, Qidx in Bsb, Boff.
  rewrite Eidx, Ecur. cbn [fence stagingBuffer]. repeat split.
  - rewrite Gvf, Bsb. congruence.
  - intros i Hi. rewrite (Eoff i Hi), Gvf, (Boff i Hi). congruence.
Qed.

Lemma tick_cursor_range (p : Program) (k : Tick) :
  0 <= cursor p < virtualFrames_capacity ->
  0 <= cursor (fst (tick' p k)) < virtualFrames_capacity.
Proof.
  intros Hc. unfold tick.
  destruct (push_events_frames (tick_events k) p) as (_ & Qidx & _ & _).
  set (q := fold_left push_event (tick_events k) p) in *.
  destruct (prepare_facts (context q) (tick_mouse0 k))
    as (_ & Pidx & _ & _).
  destruct (c_render_cases q (tick_timestamp k) (tick_mouse0 k)
              (tick_wait_result k) (tick_new_fence k))
    as [[_ H]|[(_ & Hr & H)|(_ & Hr & H)]].
  - rewrite H. unfold cursor in *. cbn [fst context]. congruence.
  - rewrite H. destruct (begin_frame_false _ _ Hr) as (Hsame & _).
    unfold cursor in *. cbn [fst context]. rewrite Hsame. congruence.
  - cbv zeta in H. rewrite H. cbn [fst].
    destruct (begin_frame_true _ _ Hr) as (Bidx & _). cbv zeta in Bidx.
    set (c1 := snd (fst (begin_frame (prepare' (context q) (tick_mouse0 k))
                          (tick_wait_result k)))) in *.
    destruct (emit_geometry_facts c1 (tick_timestamp k)) as (_ & Gidx & _).
    cbv zeta in Gidx.
    set (c2 := fst (emit_geometry' c1 (tick_timestamp k))) in *.
    destruct (end_frame_spec c2 (tick_new_fence k)) as (_ & Er & _).
    { unfold cursor in Hc. congruence. }
    exact Er.
Qed.

Lemma run_ticks_cursor_range (ks : list Tick) (p : Program) :
  0 <= cursor p < virtualFrames_capacity ->
  0 <= cursor (fst (run_ticks' p ks)) < virtualFrames_capacity.
Proof.
  revert p. induction ks as [|k ks IH]; intros p Hc; [exact Hc|].
  cbn [run_ticks].
  pose proof (tick_cursor_range p k Hc) as H1.
  destruct (tick' p k) as [p1 tr]. cbn [fst] in H1.
  specialize (IH p1 H1).
  destruct (run_ticks' p1 ks) as [p2 trs]. exact IH.
Qed.

Lemma ring_steps (c : Z) :
  0 <= c < virtualFrames_capacity ->
  ((c + 1) mod virtualFrames_capacity + 1) mod virtualFrames_capacity
  = (c + 2) mod virtualFrames_capacity
  /\ ((c + 2) mod virtualFrames_capacity + 1) mod virtualFrames_capacity = c
  /\ c <> (c + 1) mod virtualFrames_capacity
  /\ c <> (c + 2) mod virtualFrames_capacity
  /\ (c + 1) mod virtualFrames_capacity <> (c + 2) mod virtualFrames_capacity.
Proof.
  unfold virtualFrames_capacity. intros Hc.
  assert (H : c = 0 \/ c = 1 \/ c = 2) by lia.
  destruct H as [->|[->| ->]]; cbn; repeat split; discriminate.
Qed.

(** C6.  With the cursor inside the ring of 3 frames: [end_frame] stores
    the new fence in the current frame, leaves the other frames alone and
    moves the cursor to (cursor + 1) mod 3; the cursor stays inside the
    ring over any number of ticks; and over three consecutive ticks that
    each submit a frame the cursor comes back to where it started, the
    three ticks having armed the three frames cursor, cursor + 1, cursor + 2
    (mod 3), which are pairwise distinct, each once with its own fence. *)
Theorem ring_advance :
  forall (p : Program),
    0 <= cursor p < virtualFrames_capacity ->
    (forall f,
        let c' := fst (end_frame (context p) f) in
        virtualFrameIdx c' = (cursor p + 1) mod virtualFrames_capacity
        /\ fence (virtualFrames c' (cursor p)) = f
        /\ (forall i, i <> cursor p ->
              virtualFrames c' i = virtualFrames (context p) i)
        /\ snd (end_frame (context p) f)
           = [gl_fence_sync GL_SYNC_GPU_COMMANDS_COMPLETE 0])
    /\ (forall ks,
          0 <= cursor (fst (run_ticks' p ks)) < virtualFrames_capacity)
    /\ (forall k1 k2 k3,
          let o1 := tick' p k1 in
          let o2 := tick' (fst o1) k2 in
          let o3 := tick' (fst o2) k3 in
          let c1 := (cursor p + 1) mod virtualFrames_capacity in
          let c2 := (cursor p + 2) mod virtualFrames_capacity in
          submitted (snd o1) = true ->
          submitted (snd o2) = true ->
          submitted (snd o3) = true ->
          cursor (fst o3) = cursor p
          /\ armed_only p (fst o1) (cursor p) (tick_new_fence k1)
          /\ armed_only (fst o1) (fst o2) c1 (tick_new_fence k2)
          /\ armed_only (fst o2) (fst o3) c2 (tick_new_fence k3)
          /\ NoDup [cursor p; c1; c2]
          /\ fence (frame_at (fst o3) (cursor p)) = tick_new_fence k1
          /\ fence (frame_at (fst o3) c1) = tick_new_fence k2
          /\ fence (frame_at (fst o3) c2) = tick_new_fence k3).
Proof.
  intros p Hc. split; [|split].
  - intros f. destruct (end_frame_spec (context p) f Hc)
      as (Eidx & _ & Ecur & Eoff & _ & _ & Etr).
    cbv zeta in *. unfold cursor. rewrite Ecur. repeat split; trivial.
  - intros ks. now apply run_ticks_cursor_range.
  - intros k1 k2 k3 o1 o2 o3 c1 c2 S1 S2 S3.
    destruct (ring_steps (cursor p) Hc) as (R12 & R20 & N01 & N02 & N12).
    fold c1 c2 in R12, R20, N01, N02, N12.
    destruct (tick_submitted p k1 Hc S1) as (C1 & A1). fold o1 c1 in C1, A1.
    pose proof (tick_cursor_range p k1 Hc) as Hc1. fold o1 in Hc1.
    destruct (tick_submitted (fst o1) k2 Hc1 S2) as (C2 & A2).
    fold o2 in C2, A2. rewrite C1, R12 in C2. rewrite C1 in A2.
    pose proof (tick_cursor_range (fst o1) k2 Hc1) as Hc2. fold o2 in Hc2.
    destruct (tick_submitted (fst o2) k3 Hc2 S3) as (C3 & A3).
    fold o3 in C3, A3. rewrite C2, R20 in C3. rewrite C2 in A3.
    repeat split; try assumption; try apply A1; try apply A2; try apply A3.
    + repeat constructor; cbn [In]; intuition congruence.
    + destruct A1 as (F1 & _), A2 as (_ & _ & O2), A3 as (_ & _ & O3).
      rewrite O3, O2 by congruence. exact F1.
    + destruct A2 as (F2 & _), A3 as (_ & _ & O3).
      rewrite O3 by congruence. exact F2.
Qed.

Lemma c_render_events_empty (p : Program) (timestamp : f64) (mouse0 : Z * Z)
    (w f : Z) :
  events (context (fst (c_render' p timestamp mouse0 w f))) = [].
Proof.
  destruct (prepare_facts (context p) mouse0) as (_ & _ & Hevs & _).
  destruct (c_render_cases p timestamp mouse0 w f)
    as [[He H]|[(_ & Hr & H)|(_ & Hr & H)]].
  - rewrite H. exact He.
  - rewrite H. destruct (begin_frame_false _ _ Hr) as (Hsame & _).
    cbn [fst context]. now rewrite Hsame.
  - cbv zeta in H. rewrite H. cbn [fst context].
    destruct (begin_frame_true _ _ Hr) as (_ & _ & _ & _ & Bev & _).
    cbv zeta in Bev.
    destruct (end_frame_queues
                (fst (emit_geometry'
                        (snd (fst (begin_frame (prepare' (context p) mouse0) w)))
                        timestamp)) f) as (Eev & _).
    rewrite Eev.
    destruct (emit_geometry_facts
                (snd (fst (begin_frame (prepare' (context p) mouse0) w)))
                timestamp) as (_ & _ & Gev & _).
    cbv zeta in Gev. congruence.
Qed.

Lemma idle_ticks (ks : list Tick) (p : Program) :
  events (context p) = [] ->
  Forall (fun k => tick_events k = []) ks ->
  context (fst (run_ticks' p ks)) = context p
  /\ Forall (fun tr => tr = []) (snd (run_ticks' p ks)).
Proof.
  revert p. induction ks as [|k ks IH]; intros p He Hks.
  - cbn. split; [reflexivity|constructor].
  - inversion Hks as [|k' ks' Hk Hrest]; subst.
    cbn [run_ticks]. unfold tick. rewrite Hk. cbn [fold_left].
    unfold c_render. rewrite He. cbn [List.length Z.of_nat Z.eqb].
    specialize (IH (mkProgram (context p) (tick_timestamp k)) He Hrest).
    cbn [context] in IH.
    destruct (run_ticks' (mkProgram (context p) (tick_timestamp k)) ks)
      as [p2 trs].
    cbn [fst snd] in *. destruct IH as (IH1 & IH2).
    split; [exact IH1|]. constructor; [reflexivity|exact IH2].
Qed.

(** C10.  Called with an empty event queue, [c_render] returns at once:
    the context (tree, draw commands, frames, fences, cursor) is the one it
    was given and no host function is called; only the function's own
    [lastTimestamp] is set.  Every tick leaves the event queue empty, so
    from then on, as long as no event is enqueued, any number of ticks
    leaves the context as it is and calls nothing. *)
Theorem idle_tick :
  forall (p : Program) (timestamp : f64) (mouse0 : Z * Z) (w f : Z),
    events (context p) = [] ->
    c_render' p timestamp mouse0 w f = (mkProgram (context p) timestamp, [])
    /\ (forall q ts m w' f',
          events (context (fst (c_render' q ts m w' f'))) = [])
    /\ (forall ks,
          Forall (fun k => tick_events k = []) ks ->
          context (fst (run_ticks' p ks)) = context p
          /\ Forall (fun tr => tr = []) (snd (run_ticks' p ks))).
Proof.
  intros p timestamp mouse0 w f He. split; [|split].
  - unfold c_render. rewrite He. reflexivity.
  - intros q ts m w' f'. apply c_render_events_empty.
  - intros ks Hks. now apply idle_ticks.
Qed.

End TickFacts.

(** ** The theorems at concrete inputs *)

Lemma skipped_tick_keeps_draw_commands_witness :
  let p := ring_program 9 0 0 0 [move_event] [] in
  let out := c_render window_id other_id identity_rotate p f32_zero (0, 0)
               GL_TIMEOUT_EXPIRED 11 in
  events (context (fst out)) = []
  /\ drawCommands (context (fst out)) <> [].
Proof.
  cbv zeta.
  destruct (skipped_tick_keeps_draw_commands window_id other_id identity_rotate
              (ring_program 9 0 0 0 [move_event] []) f32_zero (0, 0)
              GL_TIMEOUT_EXPIRED 11)
    as (_ & _ & _ & _ & Hev & _ & Hcmds).
  - discriminate.
  - cbn. discriminate.
  - left. reflexivity.
  - split; [exact Hev | exact Hcmds].
Defined.

(** The skipped tick leaves one draw command behind; the next tick that
    gets through [begin_frame] writes it again together with its own: two
    rectangles and the triangle. *)
Example skipped_commands_are_drawn_later :
  let p := ring_program 9 0 0 0 [] [] in
  let '(p1, tr1) := tick window_id other_id identity_rotate p
                      (move_tick GL_TIMEOUT_EXPIRED 11) in
  let '(p2, tr2) := tick window_id other_id identity_rotate p1
                      (move_tick GL_ALREADY_SIGNALED 12) in
  tr1 = [poll 9; console_log "Timeout expired"]
  /\ List.length (drawCommands (context p1)) = 1%nat
  /\ List.length (filter is_buffer_sub_data tr2) = 3%nat
  /\ drawCommands (context p2) = [].
Proof. vm_compute. repeat split; reflexivity. Qed.

Lemma ring_advance_witness :
  let p := ring_program 0 0 0 1 [] [] in
  let o1 := tick window_id other_id identity_rotate p
              (move_tick GL_ALREADY_SIGNALED 11) in
  let o2 := tick window_id other_id identity_rotate (fst o1)
              (move_tick GL_ALREADY_SIGNALED 12) in
  let o3 := tick window_id other_id identity_rotate (fst o2)
              (move_tick GL_ALREADY_SIGNALED 13) in
  cursor (fst o3) = 1
  /\ fence (frame_at (fst o3) 1) = 11
  /\ fence (frame_at (fst o3) 2) = 12
  /\ fence (frame_at (fst o3) 0) = 13.
Proof.
  cbv zeta.
  destruct (ring_advance window_id other_id identity_rotate
              (ring_program 0 0 0 1 [] [])) as (_ & _ & H).
  - unfold virtualFrames_capacity. cbn. lia.
  - specialize (H (move_tick GL_ALREADY_SIGNALED 11)
                  (move_tick GL_ALREADY_SIGNALED 12)
                  (move_tick GL_ALREADY_SIGNALED 13)).
    cbv zeta in H.
    destruct H as (Hc & _ & _ & _ & _ & F1 & F2 & F3);
      try (vm_compute; reflexivity).
    split; [exact Hc|]. split; [exact F1|]. split; [exact F2 | exact F3].
Defined.

Lemma idle_tick_witness :
  let p := ring_program 9 0 0 0 [] [] in
  c_render window_id other_id identity_rotate p f32_zero (0, 0)
    GL_ALREADY_SIGNALED 11
  = (mkProgram (context p) f32_zero, [])
  /\ snd (run_ticks window_id other_id identity_rotate p
            [quiet_tick; quiet_tick])
     = [[]; []].
Proof.
  cbv zeta.
  destruct (idle_tick window_id other_id identity_rotate
              (ring_program 9 0 0 0 [] []) f32_zero (0, 0)
              GL_ALREADY_SIGNALED 11) as (H1 & _ & H3).
  - reflexivity.
  - split; [exact H1 | reflexivity].
Defined.

(** * Further properties of the element tree *)

(** X1.  The two axis fields of [flags] are decoded independently: for
    flags packed as [major + 4 * minor + 16 * auto] with both axes in
    [0, 3], [major_axis] gives back [major] and [minor_axis] gives back
    [minor], whatever the auto-layout bit and everything above it. *)
Theorem axis_fields_decode :
  forall (e : Element) (major minor rest : Z),
    0 <= major < 4 -> 0 <= minor < 4 -> 0 <= rest ->
    flags e = major + 4 * minor + 16 * rest ->
    major_axis e = major /\ minor_axis e = minor.
Proof.
  intros e major minor rest Hma Hmi Hr Hf.
  unfold major_axis, minor_axis, LAYOUT_AXIS_MAJOR_MASK, LAYOUT_AXIS_MINOR_MASK.
  rewrite Hf. split.
  - change 3 with (Z.ones 2). rewrite Z.land_ones by lia.
    change (2 ^ 2) with 4.
    replace (major + 4 * minor + 16 * rest)
      with (major + (minor + 4 * rest) * 4) by lia.
    rewrite Z.mod_add by lia. apply Z.mod_small. lia.
  - rewrite Z.shiftr_land. change (Z.shiftr 12 2) with (Z.ones 2).
    rewrite Z.land_ones by lia. rewrite Z.shiftr_div_pow2 by lia.
    change (2 ^ 2) with 4.
    replace (major + 4 * minor + 16 * rest)
      with (major + (minor + 4 * rest) * 4) by lia.
    rewrite Z.div_add by lia. rewrite Z.div_small by lia.
    cbn [Z.add]. replace (minor + 4 * rest) with (minor + rest * 4) by lia.
    rewrite Z.mod_add by lia. apply Z.mod_small. lia.
Qed.

Lemma axis_fields_decode_witness :
  major_axis (mkElement (mkElementId 0) Vec2_zero Vec2_zero Vec2_zero
                (mkElementPadding f32_zero f32_zero f32_zero f32_zero) 0x1B) = 3
  /\ minor_axis (mkElement (mkElementId 0) Vec2_zero Vec2_zero Vec2_zero
                (mkElementPadding f32_zero f32_zero f32_zero f32_zero) 0x1B) = 2.
Proof.
  apply (axis_fields_decode _ 3 2 1); cbn; lia.
Defined.

(** X2.  [push_element] never writes [positions], the constraints or the
    two counters, and in [elements] and [parents] it writes the slot
    [elementCount] only.  When the parent is -1 the same holds for the three
    link arrays: a root append touches no slot but its own. *)
Theorem push_element_frame :
  forall (t : ElementTree) (p : ElementIndex) (e : Element),
    let t' := snd (Tree.push_element t p e) in
    positions t' = positions t
    /\ constraints t' = constraints t
    /\ constraintCount t' = constraintCount t
    /\ elementCount t' = elementCount t
    /\ elementCapacity t' = elementCapacity t
    /\ (forall j, j <> elementCount t ->
          elements t' j = elements t j /\ parents t' j = parents t j)
    /\ (index p = -1 ->
          forall j, j <> elementCount t ->
            firstChildren t' j = firstChildren t j
            /\ lastChildren t' j = lastChildren t j
            /\ siblings t' j = siblings t j).
Proof.
  intros t p e t'. unfold t', Tree.push_element. cbn [snd index].
  destruct (index p =? -1) eqn:Hp; cbn [negb].
  - do 5 (split; [reflexivity|]). split.
    + intros j Hj. cbn. now rewrite !upd_other by exact Hj.
    + intros _ j Hj. cbn. now rewrite !upd_other by exact Hj.
  - do 5 (split; [reflexivity|]). split.
    + intros j Hj. cbn. now rewrite !upd_other by exact Hj.
    + intros H. apply Z.eqb_neq in Hp. contradiction.
Qed.

(** X3.  Appending under a parent whose child list is empty (both links
    hold -1) makes the new element its first and its last child and records
    the parent; no sibling link of another slot is written. *)
Theorem push_element_first_child :
  forall (t : ElementTree) (p : ElementIndex) (e : Element),
    index p <> -1 ->
    index p <> elementCount t ->
    index (firstChildren t (index p)) = -1 ->
    index (lastChildren t (index p)) = -1 ->
    let r := fst (Tree.push_element t p e) in
    let t' := snd (Tree.push_element t p e) in
    index r = elementCount t
    /\ firstChildren t' (index p) = r
    /\ lastChildren t' (index p) = r
    /\ parents t' (index r) = p
    /\ elements t' (index r) = e
    /\ (forall j, j <> elementCount t -> siblings t' j = siblings t j).
Proof.
  intros t p e Hp Hne Hf Hl r t'. unfold r, t', Tree.push_element.
  cbn [fst snd index].
  apply Z.eqb_neq in Hp. rewrite Hp. cbn [negb].
  cbn [firstChildren lastChildren siblings Tree.with_links parents elements].
  rewrite !(upd_other _ _ (index p)) by exact Hne.
  rewrite Hf. change (-1 =? -1) with true. cbv iota.
  rewrite !upd_same. do 5 (split; [reflexivity|]).
  intros j Hj. rewrite (upd_other _ _ (index p)) by exact Hne.
  rewrite Hl. change (-1 =? -1) with true. cbn [negb].
  now apply upd_other.
Qed.

Lemma push_element_first_child_witness :
  firstChildren
    (snd (Tree.push_element (blank_tree 1 16) (mkElementIndex 0)
            (element_at 2 5 5))) 0
  = mkElementIndex 1.
Proof.
  apply (push_element_first_child (blank_tree 1 16) (mkElementIndex 0)
           (element_at 2 5 5)); cbn; (reflexivity || discriminate).
Defined.

(** X4.  Appending under a parent that has a last child [l] chains the
    new element behind [l] ([siblings[l]] becomes the new index), makes it
    the last child and leaves the parent's first child as it was. *)
Theorem push_element_next_child :
  forall (t : ElementTree) (p : ElementIndex) (e : Element),
    index p <> -1 ->
    index p <> elementCount t ->
    index (firstChildren t (index p)) <> -1 ->
    index (lastChildren t (index p)) <> -1 ->
    let l := index (lastChildren t (index p)) in
    let r := fst (Tree.push_element t p e) in
    let t' := snd (Tree.push_element t p e) in
    siblings t' l = r
    /\ lastChildren t' (index p) = r
    /\ firstChildren t' (index p) = firstChildren t (index p)
    /\ (forall j, j <> elementCount t -> j <> l -> siblings t' j = siblings t j).
Proof.
  intros t p e Hp Hne Hf Hl l r t'. unfold l, r, t', Tree.push_element.
  cbn [fst snd index].
  apply Z.eqb_neq in Hp. rewrite Hp. cbn [negb].
  cbn [firstChildren lastChildren siblings Tree.with_links].
  rewrite (upd_other (firstChildren t) _ (index p)) by exact Hne.
  rewrite !(upd_other (lastChildren t) _ (index p)) by exact Hne.
  apply Z.eqb_neq in Hf, Hl. rewrite Hf, Hl. cbn [negb].
  rewrite !upd_same. split; [reflexivity|]. split; [reflexivity|]. split.
  - now apply upd_other.
  - intros j Hj Hjl. rewrite upd_other by exact Hjl. now apply upd_other.
Qed.

Lemma push_element_next_child_witness :
  let t := snd (Tree.push_element (blank_tree 1 16) (mkElementIndex 0)
                  (element_at 2 5 5)) in
  let t1 := mkElementTree (elements t) (parents t) (firstChildren t)
              (lastChildren t) (siblings t) (positions t) 2 16
              (constraints t) 0 0 in
  siblings (snd (Tree.push_element t1 (mkElementIndex 0) (element_at 3 7 7))) 1
  = mkElementIndex 2.
Proof.
  cbv zeta.
  apply (push_element_next_child
           (let t := snd (Tree.push_element (blank_tree 1 16) (mkElementIndex 0)
                            (element_at 2 5 5)) in
            mkElementTree (elements t) (parents t) (firstChildren t)
              (lastChildren t) (siblings t) (positions t) 2 16
              (constraints t) 0 0)
           (mkElementIndex 0) (element_at 3 7 7)); cbn; discriminate.
Defined.

(** ** Further properties of [transform] *)

Lemma transform_body_outside (t : ElementTree) (i j : Z) :
  j <> i -> positions (Tree.transform_body t i) j = positions t j.
Proof. intros H. cbn. now apply upd_other. Qed.

(** After the first [n] iterations the slots outside [0, n) hold what they
    held before the loop. *)
Lemma transform_prefix_outside (t : ElementTree) (n : nat) (j : Z) :
  j < 0 \/ Z.of_nat n <= j ->
  positions (fold_left Tree.transform_body (Tree.loop_indices (Z.of_nat n)) t) j
  = positions t j.
Proof.
  induction n as [|n IH]; intros Hj; [reflexivity|].
  rewrite loop_indices_succ, fold_left_app. cbn [fold_left].
  rewrite transform_body_outside by lia. apply IH. lia.
Qed.

Lemma transform_loop_frame (l : list Z) (t : ElementTree) :
  let t' := fold_left Tree.transform_body l t in
  elements t' = elements t /\ parents t' = parents t
  /\ firstChildren t' = firstChildren t /\ lastChildren t' = lastChildren t
  /\ siblings t' = siblings t /\ elementCount t' = elementCount t
  /\ elementCapacity t' = elementCapacity t
  /\ constraints t' = constraints t /\ constraintCount t' = constraintCount t
  /\ constraintCapacity t' = constraintCapacity t.
Proof.
  revert t. induction l as [|i l IH]; intros t; [cbn; repeat split|].
  cbn [fold_left]. specialize (IH (Tree.transform_body t i)).
  cbv zeta in *. cbn in IH. exact IH.
Qed.

Lemma transform_outside (t : ElementTree) (j : Z) :
  j < 0 \/ elementCount t <= j ->
  positions (Tree.transform t) j = positions t j.
Proof.
  intros Hj. unfold Tree.transform.
  destruct (Z.le_gt_cases 0 (elementCount t)) as [Hn|Hn].
  - pose proof (transform_prefix_outside t (Z.to_nat (elementCount t)) j) as H.
    rewrite Z2Nat.id in H by exact Hn. apply H. exact Hj.
  - unfold Tree.loop_indices.
    replace (Z.to_nat (elementCount t)) with O by lia. reflexivity.
Qed.

(** X5.  [transform] writes [positions] in the slots [0, elementCount)
    and nothing else: every other array, both counters and every position
    outside that range are as before.  With a count of 0 or below it
    changes nothing at all. *)
Theorem transform_frame :
  forall (t : ElementTree),
    let t' := Tree.transform t in
    elements t' = elements t /\ parents t' = parents t
    /\ firstChildren t' = firstChildren t /\ lastChildren t' = lastChildren t
    /\ siblings t' = siblings t
    /\ elementCount t' = elementCount t /\ elementCapacity t' = elementCapacity t
    /\ constraints t' = constraints t
    /\ (forall j, j < 0 \/ elementCount t <= j -> positions t' j = positions t j)
    /\ (elementCount t <= 0 -> t' = t).
Proof.
  intros t t'.
  destruct (transform_loop_frame (Tree.loop_indices (elementCount t)) t)
    as (H1 & H2 & H3 & H4 & H5 & H6 & H7 & H8 & _).
  cbv zeta in *. unfold t', Tree.transform.
  do 8 (split; [assumption|]). split.
  - intros j Hj. now apply transform_outside.
  - intros Hc. unfold Tree.loop_indices.
    replace (Z.to_nat (elementCount t)) with O by lia. reflexivity.
Qed.

Lemma transform_recurrence (t : ElementTree) :
  parents_first t ->
  forall i, 0 <= i < elementCount t ->
    positions (Tree.transform t) i = placed t (positions (Tree.transform t)) i.
Proof.
  intros Hp i Hi. unfold Tree.transform.
  destruct (Z.le_gt_cases 0 (elementCount t)) as [Hn|Hn]; [|lia].
  pose proof (transform_prefix t (Z.to_nat (elementCount t))) as H.
  rewrite Z2Nat.id in H by exact Hn.
  destruct H as (_ & _ & _ & H); [exact Hp|]. now apply H.
Qed.

(** Two trees with the same elements, parents and count, whose positions
    agree below slot 0, are given the same positions below the count. *)
Lemma transform_agree (t u : ElementTree) :
  same_but_positions t u ->
  parents_first t ->
  (forall j, j < 0 -> positions t j = positions u j) ->
  forall (n : nat) (i : Z), i < Z.of_nat n -> i < elementCount t ->
    positions (Tree.transform t) i = positions (Tree.transform u) i.
Proof.
  intros (He & Hpa & Hc) Hp Hneg.
  assert (Hpu : parents_first u).
  { intros i Hi. rewrite <- Hpa. apply Hp. now rewrite Hc. }
  induction n as [|n IH]; intros i Hn Hi.
  - rewrite !transform_outside by lia. apply Hneg. lia.
  - destruct (Z.lt_ge_cases i 0) as [Hlt|Hge].
    + rewrite !transform_outside by lia. now apply Hneg.
    + rewrite (transform_recurrence t Hp i) by lia.
      rewrite (transform_recurrence u Hpu i) by lia.
      unfold placed. rewrite <- He, <- Hpa.
      destruct (negb (index (parents t i) =? -1)); [|reflexivity].
      rewrite (IH (index (parents t i))); [reflexivity| |].
      * specialize (Hp i ltac:(lia)). lia.
      * specialize (Hp i ltac:(lia)). lia.
Qed.

(** X6.  On a tree whose parents are stored before their children a
    second [transform] changes nothing: every position is already what the
    pass computes. *)
Theorem transform_idempotent :
  forall (t : ElementTree),
    parents_first t ->
    forall j, positions (Tree.transform (Tree.transform t)) j
              = positions (Tree.transform t) j.
Proof.
  intros t Hp j.
  destruct (transform_loop_frame (Tree.loop_indices (elementCount t)) t)
    as (He & Hpa & _ & _ & _ & Hc & _).
  cbv zeta in *. fold (Tree.transform t) in He, Hpa, Hc.
  pose proof (transform_outside t) as Hout.
  destruct (Z.lt_ge_cases j (elementCount t)) as [Hlt|Hge].
  - symmetry.
    apply (transform_agree t (Tree.transform t)) with (n := Z.to_nat (j + 1 - Z.min j 0)).
    + repeat split; congruence.
    + exact Hp.
    + intros k Hk. symmetry. apply Hout. lia.
    + lia.
    + exact Hlt.
  - rewrite transform_outside by lia. reflexivity.
Qed.

Lemma transform_idempotent_witness :
  positions (Tree.transform (Tree.transform parent_child_tree)) 1
  = positions (Tree.transform parent_child_tree) 1.
Proof.
  apply (transform_idempotent parent_child_tree).
  intros i Hi. cbn in Hi.
  assert (Hc : i = 0 \/ i = 1) by lia.
  destruct Hc as [->| ->]; cbn; lia.
Defined.

(** X7.  The positions [transform] assigns depend on the elements and the
    parents only: two trees that differ at most in [positions], with every
    parent index -1 or a smaller slot, get the same position in every slot
    below the count. *)
Theorem transform_ignores_old_positions :
  forall (t u : ElementTree),
    same_but_positions t u ->
    well_parented t ->
    forall i, 0 <= i < elementCount t ->
      positions (Tree.transform t) i = positions (Tree.transform u) i.
Proof.
  intros t u (He & Hpa & Hc) Hw.
  assert (Hwu : well_parented u).
  { intros i Hi. rewrite <- Hpa. apply Hw. now rewrite Hc. }
  assert (Hp : parents_first t).
  { intros i Hi. destruct (Hw i Hi) as [H|H]; lia. }
  assert (Hpu : parents_first u).
  { intros i Hi. destruct (Hwu i Hi) as [H|H]; lia. }
  assert (H : forall (n : nat) (i : Z), 0 <= i < Z.of_nat n -> i < elementCount t ->
            positions (Tree.transform t) i = positions (Tree.transform u) i).
  { induction n as [|n IH]; intros i Hn Hi; [lia|].
    rewrite (transform_recurrence t Hp i) by lia.
    rewrite (transform_recurrence u Hpu i) by lia.
    unfold placed. rewrite <- He, <- Hpa.
    destruct (Hw i ltac:(lia)) as [Hroot|Hin].
    - rewrite Hroot. reflexivity.
    - destruct (negb (index (parents t i) =? -1)); [|reflexivity].
      rewrite (IH (index (parents t i))) by lia. reflexivity. }
  intros i Hi. apply (H (Z.to_nat (i + 1))); lia.
Qed.

Lemma transform_ignores_old_positions_witness :
  positions (Tree.transform parent_child_tree) 1
  = positions (Tree.transform
                 (Tree.with_positions parent_child_tree
                    (fun _ => vec2_of_ints 7 7))) 1.
Proof.
  apply (transform_ignores_old_positions parent_child_tree
           (Tree.with_positions parent_child_tree (fun _ => vec2_of_ints 7 7))).
  - repeat split.
  - intros i Hi. cbn in Hi.
    assert (Hc : i = 0 \/ i = 1) by lia.
    destruct Hc as [->| ->]; cbn; lia.
  - cbn. lia.
Defined.

(** A slot written by iteration [i] is not written again. *)
Lemma transform_prefix_keeps (t : ElementTree) (i : Z) (n : nat) :
  0 <= i < Z.of_nat n ->
  positions (fold_left Tree.transform_body (Tree.loop_indices (Z.of_nat n)) t) i
  = positions (Tree.transform_body
                 (fold_left Tree.transform_body (Tree.loop_indices i) t) i) i.
Proof.
  induction n as [|n IH]; intros Hi; [lia|].
  rewrite loop_indices_succ, fold_left_app. cbn [fold_left].
  destruct (Z.eq_dec i (Z.of_nat n)) as [->|Hne]; [reflexivity|].
  rewrite transform_body_outside by exact Hne. apply IH. lia.
Qed.

(** X8.  An element stored at or before its own parent ([parents[i] >= i])
    is placed relative to the position its parent had before the pass, not
    the one the pass computes for the parent. *)
Theorem transform_reads_stale_parent :
  forall (t : ElementTree) (i : Z),
    0 <= i < elementCount t ->
    i <= index (parents t i) ->
    positions (Tree.transform t) i
    = Vec2_add (positions t (index (parents t i))) (pos (elements t i)).
Proof.
  intros t i Hi Hpar. unfold Tree.transform.
  rewrite <- (Z2Nat.id (elementCount t)) by lia.
  rewrite transform_prefix_keeps by lia.
  destruct (transform_loop_frame (Tree.loop_indices i) t) as (He & Hpa & _).
  cbv zeta in *.
  unfold Tree.transform_body at 1. cbn [positions Tree.with_positions].
  rewrite upd_same, He, Hpa.
  replace (index (parents t i) =? -1) with false
    by (symmetry; apply Z.eqb_neq; lia).
  cbn [negb].
  rewrite <- (Z2Nat.id i) at 1 by lia.
  rewrite transform_prefix_outside by lia. reflexivity.
Qed.

Lemma transform_reads_stale_parent_witness :
  let t := mkElementTree (elements parent_child_tree)
             (fun i => if Z.eqb i 0 then mkElementIndex 1 else no_index)
             (firstChildren parent_child_tree) (lastChildren parent_child_tree)
             (siblings parent_child_tree) (fun _ => vec2_of_ints 100 100) 2 16
             (constraints parent_child_tree) 0 0 in
  positions (Tree.transform t) 0 = vec2_of_ints 110 110
  /\ positions (Tree.transform t) 1 = vec2_of_ints 5 5.
Proof.
  cbv zeta. split.
  - rewrite transform_reads_stale_parent by (cbn; lia).
    vm_compute. reflexivity.
  - vm_compute. reflexivity.
Defined.


(** * Further properties of the tick *)

Section TickMore.

Variable windowId otherId : ElementId.
Variable rotate : Vec2 -> f64 -> Vec2.

Local Abbreviation c_render' := (c_render windowId otherId rotate).
Local Abbreviation prepare' := (prepare windowId otherId).
Local Abbreviation build_ui' := (build_ui windowId otherId).
Local Abbreviation emit_geometry' := (emit_geometry rotate).
Local Abbreviation tick' := (tick windowId otherId rotate).

Lemma build_ui_facts (t : ElementTree) :
  fst (build_ui' t) = mkElementIndex 0
  /\ elementCount (snd (build_ui' t)) = 0
  /\ elements (snd (build_ui' t)) 0 = other_element otherId
  /\ parents (snd (build_ui' t)) 0 = mkElementIndex 0
  /\ positions (snd (build_ui' t)) = positions t
  /\ (forall j, j <> 0 -> elements (snd (build_ui' t)) j = elements t j).
Proof.
  unfold build_ui. cbn. do 5 (split; [reflexivity|]).
  intros j Hj. apply Z.eqb_neq in Hj. unfold upd. now rewrite Hj.
Qed.

Lemma prepare_commands (ctx : Context) (mouse0 : Z * Z) :
  drawCommands (prepare' ctx mouse0)
  = drawCommands ctx
    ++ [draw_command (snd (build_ui' (elementTree ctx)))
          (fst (build_ui' (elementTree ctx)))
          (fold_left event_step (events ctx) mouse0)].
Proof.
  unfold prepare.
  destruct (build_ui windowId otherId (elementTree ctx)) as [o t]. reflexivity.
Qed.

Lemma andb_pairs (a b c d : bool) : a && b && c && d = (a && b) && (c && d).
Proof. now destruct a, b, c, d. Qed.

Lemma span_covers (n : nat) (m : Z) :
  - Z.of_nat n <= m <= Z.of_nat n -> In m (span n).
Proof.
  intros Hm. unfold span. apply in_map_iff.
  exists (Z.to_nat (m + Z.of_nat n)). split; [lia|].
  apply in_seq. lia.
Qed.

Lemma axis_hit_32 (m : Z) :
  -4096 <= m <= 4096 -> axis_hit 32 m = (0 <=? m) && (m <=? 32).
Proof.
  intros Hm.
  assert (Hall : forallb (fun k => Bool.eqb (axis_hit 32 k) ((0 <=? k) && (k <=? 32)))
                   (span 4096) = true) by (vm_compute; reflexivity).
  rewrite forallb_forall in Hall. apply Bool.eqb_prop. apply Hall.
  apply span_covers. change (Z.of_nat 4096) with 4096. lia.
Qed.

Lemma axis_hit_128 (m : Z) :
  -4096 <= m <= 4096 -> axis_hit 128 m = (0 <=? m) && (m <=? 128).
Proof.
  intros Hm.
  assert (Hall : forallb (fun k => Bool.eqb (axis_hit 128 k) ((0 <=? k) && (k <=? 128)))
                   (span 4096) = true) by (vm_compute; reflexivity).
  rewrite forallb_forall in Hall. apply Bool.eqb_prop. apply Hall.
  apply span_covers. change (Z.of_nat 4096) with 4096. lia.
Qed.

(** X11.  The one draw command a tick pushes always targets index 0, and
    for mouse coordinates between -4096 and 4096 its colour is the hover
    colour exactly when the mouse is inside the box [0, 32] x [0, 128] of
    [otherElem], borders included; otherwise it is the plain colour.  The
    mouse coordinates are those left by the loop over the events. *)
Theorem draw_command_hit_test :
  forall (ctx : Context) (mouse0 : Z * Z),
    let mouse := fold_left event_step (events ctx) mouse0 in
    -4096 <= fst mouse <= 4096 ->
    -4096 <= snd mouse <= 4096 ->
    drawCommands (prepare' ctx mouse0)
    = drawCommands ctx
      ++ [mkDrawCommand (mkElementIndex 0)
            (if in_box mouse then color_hover else color_plain)].
Proof.
  intros ctx mouse0 mouse Hx Hy.
  rewrite prepare_commands. fold mouse. f_equal. f_equal.
  destruct (build_ui_facts (elementTree ctx)) as (Ho & _ & He & _).
  rewrite Ho. unfold draw_command. destruct mouse as [mx my].
  cbn [index]. rewrite He. cbn [fst snd] in *.
  change (pos (other_element otherId)) with Vec2_zero.
  change (extent (other_element otherId))
    with (mkVec2 (f32_of_int 32) (f32_of_int 128)).
  cbn [vx vy Vec2_zero]. unfold in_box. cbn [fst snd].
  rewrite !andb_pairs.
  change (f32_leb f32_zero (f32_of_int mx)
          && f32_leb (f32_of_int mx) (f32_add f32_zero (f32_of_int 32)))
    with (axis_hit 32 mx).
  change (f32_leb f32_zero (f32_of_int my)
          && f32_leb (f32_of_int my) (f32_add f32_zero (f32_of_int 128)))
    with (axis_hit 128 my).
  rewrite (axis_hit_32 mx Hx), (axis_hit_128 my Hy).
  now destruct ((0 <=? mx) && (mx <=? 32) && ((0 <=? my) && (my <=? 128))).
Qed.

End TickMore.

(** X10.  After the loop over the events the mouse coordinates are those
    of the most recent [MOUSE_MOVE] in the queue, with y turned into
    [600 - y]; button events do not matter, and without any [MOUSE_MOVE]
    the coordinates are the initial values of the two locals, which the
    code never sets. *)
Theorem last_mouse_move_wins :
  forall (evs : list Event) (mouse0 : Z * Z),
    fold_left event_step evs mouse0
    = match last_mouse_move evs with
      | Some e => (evt_x e, wrap_i32 (600 - evt_y e))
      | None => mouse0
      end.
Proof.
  intros evs mouse0. unfold last_mouse_move.
  induction evs as [|e evs IH] using rev_ind; [reflexivity|].
  rewrite fold_left_app, rev_app_distr. cbn [fold_left rev app find].
  unfold event_step at 1, is_mouse_move at 1.
  destruct (evt_type e); [reflexivity | exact IH | exact IH].
Qed.

Lemma draw_command_hit_test_witness :
  drawCommands
    (prepare window_id other_id
       (ring_context 0 0 0 0 [mkEvent MOUSE_MOVE 10 500 (-1)] []) (0, 0))
  = [mkDrawCommand (mkElementIndex 0) color_hover].
Proof.
  apply (draw_command_hit_test window_id other_id
           (ring_context 0 0 0 0 [mkEvent MOUSE_MOVE 10 500 (-1)] []) (0, 0));
    vm_compute; split; discriminate.
Defined.

(** ** Geometry written by a submitting tick *)

(** The write of the rectangle of [cmd] at [offset]. *)
Lemma draw_loop_shape (t : ElementTree) (cmds : list DrawCommand)
    (offset : Z) (tr : list Effect) :
  exists rects,
    fold_left (draw_step t) cmds (offset, tr)
    = (offset + 144 * Z.of_nat (List.length cmds), tr ++ rects)
    /\ List.length rects = List.length cmds
    /\ forall k cmd, nth_error cmds k = Some cmd ->
         nth_error rects k
         = Some (gl_buffer_sub_data GL_COPY_READ_BUFFER
                   (offset + 144 * Z.of_nat k)
                   (rectangle (positions t (index (elementIndex cmd)))
                      (extent (elements t (index (elementIndex cmd))))
                      (color cmd))
                   144).
Proof.
  revert offset tr. induction cmds as [|c rest IH]; intros offset tr.
  - exists []. cbn. rewrite app_nil_r, Z.add_0_r. repeat split.
    intros k cmd H. destruct k; discriminate H.
  - cbn [fold_left draw_step push_rectangle].
    destruct (IH (offset + 144)
                (tr ++ [gl_buffer_sub_data GL_COPY_READ_BUFFER offset
                          (rectangle (positions t (index (elementIndex c)))
                             (extent (elements t (index (elementIndex c))))
                             (color c)) 144]))
      as (rects & Hfold & Hlen & Hnth).
    eexists (_ :: rects). rewrite Hfold. split; [|split].
    + rewrite <- app_assoc. cbn [app List.length]. f_equal. lia.
    + cbn [List.length]. now rewrite Hlen.
    + intros k cmd H. destruct k as [|k].
      * cbn in H. injection H as <-. cbn [nth_error].
        rewrite Z.mul_0_r, Z.add_0_r. reflexivity.
      * cbn [nth_error] in *. rewrite (Hnth k cmd H). do 2 f_equal. lia.
Qed.

Lemma emit_geometry_shape :
  forall (rotate : Vec2 -> f64 -> Vec2) (ctx : Context) (timestamp : f64),
    let n := Z.of_nat (List.length (drawCommands ctx)) in
    let t := elementTree ctx in
    exists rects,
      snd (emit_geometry rotate ctx timestamp)
      = [ gl_clear_color (f32_lit 13421773 (-26)) (f32_lit 13421773 (-26))
            (f32_lit 13421773 (-26)) (f32_of_int 1);
          gl_clear GL_COLOR_BUFFER_BIT;
          gl_bind_buffer GL_COPY_READ_BUFFER
            (stagingBuffer (virtualFrames ctx (virtualFrameIdx ctx)));
          gl_bind_buffer GL_COPY_WRITE_BUFFER (geomBuf ctx) ]
        ++ rects
        ++ [ gl_buffer_sub_data GL_COPY_READ_BUFFER (144 * n)
               (triangle rotate timestamp) 72;
             gl_copy_buffer_sub_data GL_COPY_READ_BUFFER GL_COPY_WRITE_BUFFER
               0 0 (144 * n + 72);
             gl_use_program (prog ctx);
             gl_draw_arrays GL_TRIANGLES 0 (6 * n + 3) ]
      /\ List.length rects = List.length (drawCommands ctx)
      /\ (forall k cmd, nth_error (drawCommands ctx) k = Some cmd ->
            nth_error rects k
            = Some (gl_buffer_sub_data GL_COPY_READ_BUFFER (144 * Z.of_nat k)
                      (rectangle (positions t (index (elementIndex cmd)))
                         (extent (elements t (index (elementIndex cmd))))
                         (color cmd))
                      144))
      /\ 24 * (6 * n + 3) = 144 * n + 72
      /\ drawCommands (fst (emit_geometry rotate ctx timestamp)) = [].
Proof.
  intros rotate ctx timestamp n t.
  destruct (draw_loop_shape t (drawCommands ctx) 0 []) as (rects & Hfold & Hlen & Hnth).
  exists rects. unfold emit_geometry. fold t. rewrite Hfold. fold n.
  cbn [fst snd app]. rewrite !Z.add_0_l.
  replace (Z.quot (144 * n + 72) 24) with (6 * n + 3).
  2:{ replace (144 * n + 72) with ((6 * n + 3) * 24) by lia.
      symmetry. apply Z.quot_mul. lia. }
  split; [reflexivity|]. split; [exact Hlen|]. split; [|split; [lia|reflexivity]].
  intros k cmd H. rewrite (Hnth k cmd H). reflexivity.
Qed.

(** X12.  The geometry phase writes one rectangle of 144 bytes per queued
    draw command, the [k]-th at byte offset [144 * k] of the staging buffer
    of the current frame and in queue order, then the triangle (72 bytes)
    right behind them; it copies exactly the bytes written,
    [144 * n + 72], draws [6 * n + 3] vertices, that is one vertex per 24
    bytes copied, and leaves the draw command queue empty. *)
Theorem geometry_layout :
  forall (rotate : Vec2 -> f64 -> Vec2) (ctx : Context) (timestamp : f64),
    let n := Z.of_nat (List.length (drawCommands ctx)) in
    let t := elementTree ctx in
    exists rects,
      snd (emit_geometry rotate ctx timestamp)
      = [ gl_clear_color (f32_lit 13421773 (-26)) (f32_lit 13421773 (-26))
            (f32_lit 13421773 (-26)) (f32_of_int 1);
          gl_clear GL_COLOR_BUFFER_BIT;
          gl_bind_buffer GL_COPY_READ_BUFFER
            (stagingBuffer (virtualFrames ctx (virtualFrameIdx ctx)));
          gl_bind_buffer GL_COPY_WRITE_BUFFER (geomBuf ctx) ]
        ++ rects
        ++ [ gl_buffer_sub_data GL_COPY_READ_BUFFER (144 * n)
               (triangle rotate timestamp) 72;
             gl_copy_buffer_sub_data GL_COPY_READ_BUFFER GL_COPY_WRITE_BUFFER
               0 0 (144 * n + 72);
             gl_use_program (prog ctx);
             gl_draw_arrays GL_TRIANGLES 0 (6 * n + 3) ]
      /\ List.length rects = List.length (drawCommands ctx)
      /\ (forall k cmd, nth_error (drawCommands ctx) k = Some cmd ->
            nth_error rects k
            = Some (gl_buffer_sub_data GL_COPY_READ_BUFFER (144 * Z.of_nat k)
                      (rectangle (positions t (index (elementIndex cmd)))
                         (extent (elements t (index (elementIndex cmd))))
                         (color cmd))
                      144))
      /\ 24 * (6 * n + 3) = 144 * n + 72
      /\ drawCommands (fst (emit_geometry rotate ctx timestamp)) = [].
Proof.
  intros rotate ctx timestamp. apply emit_geometry_shape.
Qed.

(** ** Frame ring *)

(** X13.  Once [begin_frame] has returned true it keeps returning true for
    the same frame without calling the host: the frame's fence is 0 after a
    successful [begin_frame], so a second call neither polls nor deletes
    anything and leaves the context alone. *)
Theorem begin_frame_twice :
  forall (c : Context) (w w' : Z),
    fst (fst (begin_frame c w)) = true ->
    begin_frame (snd (fst (begin_frame c w))) w'
    = (true, snd (fst (begin_frame c w)), []).
Proof.
  intros c w w' Hok.
  assert (Hidle : fence (virtualFrames (snd (fst (begin_frame c w)))
                           (virtualFrameIdx (snd (fst (begin_frame c w))))) = 0).
  { revert Hok. unfold begin_frame.
    destruct (fence (virtualFrames c (virtualFrameIdx c)) =? 0) eqn:Hf;
      cbn [negb].
    - intros _. cbn [fst snd]. now apply Z.eqb_eq.
    - destruct (w =? GL_WAIT_FAILED); [discriminate|].
      destruct (w =? GL_TIMEOUT_EXPIRED); [discriminate|].
      intros _. cbn [fst snd virtualFrames set_virtualFrames virtualFrameIdx].
      rewrite upd_same. reflexivity. }
  generalize dependent (snd (fst (begin_frame c w))). intros c1 Hidle.
  unfold begin_frame. rewrite Hidle. reflexivity.
Qed.

Lemma begin_frame_twice_witness :
  begin_frame
    (snd (fst (begin_frame (ring_context 9 0 0 0 [] []) GL_ALREADY_SIGNALED)))
    GL_TIMEOUT_EXPIRED
  = (true,
     snd (fst (begin_frame (ring_context 9 0 0 0 [] []) GL_ALREADY_SIGNALED)),
     []).
Proof.
  apply (begin_frame_twice (ring_context 9 0 0 0 [] []) GL_ALREADY_SIGNALED
           GL_TIMEOUT_EXPIRED).
  reflexivity.
Defined.

Lemma begin_frame_idle (c : Context) (w : Z) :
  fence (virtualFrames c (virtualFrameIdx c)) = 0 ->
  begin_frame c w = (true, c, []).
Proof.
  intros H. unfold begin_frame. apply Z.eqb_eq in H. now rewrite H.
Qed.

Lemma begin_frame_polls (c c1 : Context) (w : Z) (ok : bool)
    (tr : list Effect) :
  fence (virtualFrames c (virtualFrameIdx c)) <> 0 ->
  begin_frame c w = (ok, c1, tr) ->
  exists rest, tr = poll (fence (virtualFrames c (virtualFrameIdx c))) :: rest.
Proof.
  intros H. unfold begin_frame. apply Z.eqb_neq in H. rewrite H. cbn [negb].
  destruct (w =? GL_WAIT_FAILED);
    [|destruct (w =? GL_TIMEOUT_EXPIRED)];
    intros E; injection E as _ _ <-; eexists; reflexivity.
Qed.

Lemma draw_loop_no_poll (t : ElementTree) (cmds : list DrawCommand)
    (acc : Z * list Effect) :
  existsb is_client_wait_sync (snd acc) = false ->
  existsb is_client_wait_sync (snd (fold_left (draw_step t) cmds acc)) = false.
Proof.
  revert acc. induction cmds as [|cmd rest IH]; intros [offset tr] H; [exact H|].
  cbn [fold_left]. apply IH. cbn [draw_step push_rectangle snd] in *.
  rewrite existsb_app, H. reflexivity.
Qed.

Lemma emit_geometry_no_poll (rotate : Vec2 -> f64 -> Vec2) (c : Context)
    (timestamp : f64) :
  existsb is_client_wait_sync (snd (emit_geometry rotate c timestamp)) = false.
Proof.
  unfold emit_geometry.
  pose proof (draw_loop_no_poll (elementTree c) (drawCommands c) (0, []) eq_refl)
    as Hloop.
  destruct (fold_left (draw_step (elementTree c)) (drawCommands c) (0, []))
    as [offset tr]. cbn [snd] in *.
  cbn [app existsb is_client_wait_sync orb]. rewrite existsb_app, Hloop.
  reflexivity.
Qed.

Section RingDepth.

Variable windowId otherId : ElementId.
Variable rotate : Vec2 -> f64 -> Vec2.

Local Abbreviation c_render' := (c_render windowId otherId rotate).
Local Abbreviation prepare' := (prepare windowId otherId).
Local Abbreviation tick' := (tick windowId otherId rotate).
Local Abbreviation run_ticks' := (run_ticks windowId otherId rotate).

(** [c_render] in terms of the outcome of its [begin_frame]. *)
Lemma c_render_run (q : Program) (timestamp : f64) (mouse0 : Z * Z) (w f : Z)
    (ok : bool) (c1 : Context) (tr : list Effect) :
  events (context q) <> [] ->
  begin_frame (prepare' (context q) mouse0) w = (ok, c1, tr) ->
  c_render' q timestamp mouse0 w f
  = if ok
    then (mkProgram (fst (end_frame (fst (emit_geometry rotate c1 timestamp)) f))
            timestamp,
          tr ++ snd (emit_geometry rotate c1 timestamp)
             ++ snd (end_frame (fst (emit_geometry rotate c1 timestamp)) f)
             ++ [temporary_clear])
    else (mkProgram c1 timestamp, tr).
Proof.
  intros Hev Hb. unfold c_render. rewrite Hb.
  destruct (events (context q)) as [|e evs]; [contradiction|].
  cbn [List.length].
  replace (Z.of_nat (S (List.length evs)) =? 0) with false
    by (symmetry; apply Z.eqb_neq; lia).
  destruct ok; cbn [negb]; [|reflexivity].
  destruct (emit_geometry rotate c1 timestamp) as [c2 tg]. cbn [fst snd].
  destruct (end_frame c2 f) as [c3 te]. reflexivity.
Qed.

(** The context [begin_frame] is called on in a tick: the events of the
    tick are enqueued, the tree rebuilt and the draw command pushed. *)
Lemma tick_ready (p : Program) (k : Tick) :
  tick_events k <> [] ->
  let q := fold_left push_event (tick_events k) p in
  let c := prepare' (context q) (tick_mouse0 k) in
  events (context q) <> []
  /\ virtualFrames c = virtualFrames (context p)
  /\ virtualFrameIdx c = virtualFrameIdx (context p)
  /\ List.length (drawCommands c) = S (List.length (drawCommands (context p))).
Proof.
  intros Hev q c.
  destruct (push_events_frames (tick_events k) p) as (Qvf & Qidx & Qev & Qcmd).
  destruct (prepare_facts windowId otherId (context q) (tick_mouse0 k))
    as (Pvf & Pidx & _ & cmd & Pcmd).
  fold q in Qvf, Qidx, Qev, Qcmd. fold c in Pvf, Pidx, Pcmd.
  split; [|split; [|split]].
  - rewrite Qev. intros H. apply app_eq_nil in H. destruct H as [_ H].
    contradiction.
  - congruence.
  - congruence.
  - rewrite Pcmd, Qcmd, length_app. cbn. lia.
Qed.

Lemma tick_on_idle_frame (p : Program) (k : Tick) :
  tick_events k <> [] ->
  fence (frame_at p (cursor p)) = 0 ->
  submitted (snd (tick' p k)) = true
  /\ existsb is_client_wait_sync (snd (tick' p k)) = false.
Proof.
  intros Hev Hidle. unfold tick.
  destruct (tick_ready p k Hev) as (Hq & Hvf & Hidx & _). cbv zeta in *.
  generalize dependent (fold_left push_event (tick_events k) p).
  intros q Hq Hvf Hidx.
  rewrite (c_render_run q (tick_timestamp k) (tick_mouse0 k) (tick_wait_result k)
             (tick_new_fence k) true (prepare' (context q) (tick_mouse0 k)) []
             Hq).
  2:{ apply begin_frame_idle. rewrite Hvf, Hidx. exact Hidle. }
  pose proof (emit_geometry_no_poll rotate (prepare' (context q) (tick_mouse0 k))
                (tick_timestamp k)) as Hnp.
  generalize dependent (emit_geometry rotate (prepare' (context q) (tick_mouse0 k))
                          (tick_timestamp k)).
  intros [c2 tg] Hnp. cbn [fst snd] in *.
  unfold submitted, end_frame. cbn [snd app].
  rewrite !existsb_app, Hnp. split.
  - cbn [existsb is_fence_sync]. now rewrite orb_true_r.
  - reflexivity.
Qed.

Lemma tick_on_armed_frame (p : Program) (k : Tick) :
  tick_events k <> [] ->
  fence (frame_at p (cursor p)) <> 0 ->
  exists rest,
    snd (tick' p k) = poll (fence (frame_at p (cursor p))) :: rest.
Proof.
  intros Hev Harmed. unfold tick.
  destruct (tick_ready p k Hev) as (Hq & Hvf & Hidx & _). cbv zeta in *.
  generalize dependent (fold_left push_event (tick_events k) p).
  intros q Hq Hvf Hidx.
  destruct (begin_frame (prepare' (context q) (tick_mouse0 k)) (tick_wait_result k))
    as [[ok c1] tr] eqn:Hb.
  rewrite (c_render_run q (tick_timestamp k) (tick_mouse0 k) (tick_wait_result k)
             (tick_new_fence k) ok c1 tr Hq Hb).
  destruct (begin_frame_polls _ _ _ _ _ ltac:(rewrite Hvf, Hidx; exact Harmed) Hb)
    as (rest & ->).
  rewrite Hvf, Hidx.
  change (virtualFrames (context p) (virtualFrameIdx (context p)))
    with (frame_at p (cursor p)).
  destruct ok; cbn [snd app]; eexists; reflexivity.
Qed.

(** X15.  With three idle frames the tick runs three frames ahead of the
    host: each of the next three ticks that have events submits a frame
    without polling any fence, whatever the host would answer, and the
    fourth such tick starts by polling the fence armed by the first. *)
Theorem three_frames_ahead :
  forall (p : Program) (k1 k2 k3 k4 : Tick),
    0 <= cursor p < virtualFrames_capacity ->
    (forall i, fence (frame_at p i) = 0) ->
    tick_events k1 <> [] -> tick_events k2 <> [] ->
    tick_events k3 <> [] -> tick_events k4 <> [] ->
    tick_new_fence k1 <> 0 ->
    let o1 := tick' p k1 in
    let o2 := tick' (fst o1) k2 in
    let o3 := tick' (fst o2) k3 in
    let o4 := tick' (fst o3) k4 in
    (submitted (snd o1) = true /\ existsb is_client_wait_sync (snd o1) = false)
    /\ (submitted (snd o2) = true /\ existsb is_client_wait_sync (snd o2) = false)
    /\ (submitted (snd o3) = true /\ existsb is_client_wait_sync (snd o3) = false)
    /\ exists rest, snd o4 = poll (tick_new_fence k1) :: rest.
Proof.
  intros p k1 k2 k3 k4 Hc Hidle E1 E2 E3 E4 Hf1 o1 o2 o3 o4.
  destruct (ring_steps (cursor p) Hc) as (R12 & R20 & N01 & N02 & N12).
  pose proof (tick_on_idle_frame p k1 E1 (Hidle _)) as T1. fold o1 in T1.
  destruct (tick_submitted windowId otherId rotate p k1 Hc (proj1 T1))
    as (C1 & F1 & _ & O1).
  pose proof (tick_cursor_range windowId otherId rotate p k1 Hc) as Hc1.
  fold o1 in C1, F1, O1, Hc1.
  assert (I2 : fence (frame_at (fst o1) (cursor (fst o1))) = 0).
  { rewrite C1, O1 by congruence. apply Hidle. }
  pose proof (tick_on_idle_frame (fst o1) k2 E2 I2) as T2. fold o2 in T2.
  destruct (tick_submitted windowId otherId rotate (fst o1) k2 Hc1 (proj1 T2))
    as (C2 & _ & _ & O2).
  pose proof (tick_cursor_range windowId otherId rotate (fst o1) k2 Hc1) as Hc2.
  fold o2 in C2, O2, Hc2. rewrite C1 in C2, O2. rewrite R12 in C2.
  assert (I3 : fence (frame_at (fst o2) (cursor (fst o2))) = 0).
  { rewrite C2, O2, O1 by congruence. apply Hidle. }
  pose proof (tick_on_idle_frame (fst o2) k3 E3 I3) as T3. fold o3 in T3.
  destruct (tick_submitted windowId otherId rotate (fst o2) k3 Hc2 (proj1 T3))
    as (C3 & _ & _ & O3).
  fold o3 in C3, O3. rewrite C2 in C3, O3. rewrite R20 in C3.
  assert (A4 : fence (frame_at (fst o3) (cursor (fst o3))) = tick_new_fence k1).
  { rewrite C3, O3, O2 by congruence. exact F1. }
  destruct (tick_on_armed_frame (fst o3) k4 E4) as (rest & Hrest).
  { rewrite A4. exact Hf1. }
  fold o4 in Hrest. rewrite A4 in Hrest.
  split; [exact T1|]. split; [exact T2|]. split; [exact T3|].
  exists rest. exact Hrest.
Qed.

End RingDepth.

Lemma three_frames_ahead_witness :
  let p := ring_program 0 0 0 0 [] [] in
  let o1 := tick window_id other_id identity_rotate p
              (move_tick GL_TIMEOUT_EXPIRED 11) in
  let o2 := tick window_id other_id identity_rotate (fst o1)
              (move_tick GL_TIMEOUT_EXPIRED 12) in
  let o3 := tick window_id other_id identity_rotate (fst o2)
              (move_tick GL_TIMEOUT_EXPIRED 13) in
  let o4 := tick window_id other_id identity_rotate (fst o3)
              (move_tick GL_TIMEOUT_EXPIRED 14) in
  submitted (snd o3) = true
  /\ exists rest, snd o4 = poll 11 :: rest.
Proof.
  cbv zeta.
  destruct (three_frames_ahead window_id other_id identity_rotate
              (ring_program 0 0 0 0 [] [])
              (move_tick GL_TIMEOUT_EXPIRED 11) (move_tick GL_TIMEOUT_EXPIRED 12)
              (move_tick GL_TIMEOUT_EXPIRED 13) (move_tick GL_TIMEOUT_EXPIRED 14))
    as (_ & _ & (H3 & _) & H4).
  - unfold virtualFrames_capacity. cbn. lia.
  - intros i. unfold frame_at. cbn.
    destruct (i =? 0); [reflexivity|]. destruct (i =? 1); reflexivity.
  - discriminate.
  - discriminate.
  - discriminate.
  - discriminate.
  - cbn. discriminate.
  - split; [exact H3 | exact H4].
Defined.

(** ** Backlog of draw commands *)

Lemma begin_frame_commands (c c1 : Context) (w : Z) (ok : bool)
    (tr : list Effect) :
  begin_frame c w = (ok, c1, tr) ->
  drawCommands c1 = drawCommands c
  /\ existsb is_fence_sync tr = false.
Proof.
  unfold begin_frame.
  destruct (negb (fence (virtualFrames c (virtualFrameIdx c)) =? 0)).
  - destruct (w =? GL_WAIT_FAILED);
      [|destruct (w =? GL_TIMEOUT_EXPIRED)];
      intros E; injection E as _ <- <-; split; reflexivity.
  - intros E; injection E as _ <- <-; split; reflexivity.
Qed.

Section Backlog.

Variable windowId otherId : ElementId.
Variable rotate : Vec2 -> f64 -> Vec2.

Local Abbreviation prepare' := (prepare windowId otherId).
Local Abbreviation tick' := (tick windowId otherId rotate).
Local Abbreviation run_ticks' := (run_ticks windowId otherId rotate).

(** X16.  A tick that has events pushes exactly one draw command.  If it
    does not submit, the queue is one longer than before; if it submits,
    the queue was drawn whole, old commands included, ([6 * (n + 1) + 3]
    vertices and [144 * (n + 1) + 72] bytes for [n] commands left over
    from before) and is empty afterwards. *)
Theorem tick_draws_backlog :
  forall (p : Program) (k : Tick),
    tick_events k <> [] ->
    let out := tick' p k in
    let n := Z.of_nat (List.length (drawCommands (context p))) in
    (submitted (snd out) = false ->
       List.length (drawCommands (context (fst out)))
       = S (List.length (drawCommands (context p))))
    /\ (submitted (snd out) = true ->
          drawCommands (context (fst out)) = []
          /\ In (gl_copy_buffer_sub_data GL_COPY_READ_BUFFER GL_COPY_WRITE_BUFFER
                   0 0 (144 * (n + 1) + 72)) (snd out)
          /\ In (gl_draw_arrays GL_TRIANGLES 0 (6 * (n + 1) + 3)) (snd out)).
Proof.
  intros p k Hev out n. unfold out, tick.
  destruct (tick_ready windowId otherId p k Hev) as (Hq & _ & _ & Hlen).
  cbv zeta in *.
  generalize dependent (fold_left push_event (tick_events k) p).
  intros q Hq Hlen.
  destruct (begin_frame (prepare' (context q) (tick_mouse0 k)) (tick_wait_result k))
    as [[ok c1] tr] eqn:Hb.
  rewrite (c_render_run windowId otherId rotate q (tick_timestamp k)
             (tick_mouse0 k) (tick_wait_result k) (tick_new_fence k) ok c1 tr
             Hq Hb).
  destruct (begin_frame_commands _ _ _ _ _ Hb) as (Hcmds & Hnf).
  rewrite <- Hcmds in Hlen.
  destruct ok.
  - destruct (emit_geometry_shape rotate c1 (tick_timestamp k))
      as (rects & Htr & _ & _ & _ & Hempty).
    replace (Z.of_nat (List.length (drawCommands c1))) with (n + 1) in Htr
      by (unfold n; lia).
    generalize dependent (emit_geometry rotate c1 (tick_timestamp k)).
    intros [c2 tg] Htr Hempty. cbn [fst snd] in *. split.
    + unfold submitted, end_frame. cbn [snd].
      rewrite !existsb_app. cbn [existsb is_fence_sync].
      rewrite !orb_true_r. discriminate.
    + intros _. split; [exact Hempty|].
      rewrite Htr. split; apply in_or_app; right; apply in_or_app; left;
        apply in_or_app; right; apply in_or_app; right; cbn; tauto.
  - cbn [fst snd context]. split; [intros _; exact Hlen|].
    unfold submitted. rewrite Hnf. discriminate.
Qed.

Lemma tick_draws_backlog_state (p : Program) (k : Tick) :
  tick_events k <> [] ->
  submitted (snd (tick' p k)) = false ->
  List.length (drawCommands (context (fst (tick' p k))))
  = S (List.length (drawCommands (context p))).
Proof.
  intros Hev. unfold tick.
  destruct (tick_ready windowId otherId p k Hev) as (Hq & _ & _ & Hlen).
  cbv zeta in *.
  generalize dependent (fold_left push_event (tick_events k) p).
  intros q Hq Hlen.
  destruct (begin_frame (prepare' (context q) (tick_mouse0 k)) (tick_wait_result k))
    as [[ok c1] tr] eqn:Hb.
  rewrite (c_render_run windowId otherId rotate q (tick_timestamp k)
             (tick_mouse0 k) (tick_wait_result k) (tick_new_fence k) ok c1 tr
             Hq Hb).
  destruct (begin_frame_commands _ _ _ _ _ Hb) as (Hcmds & _).
  rewrite <- Hcmds in Hlen.
  destruct ok.
  - generalize (emit_geometry rotate c1 (tick_timestamp k)). intros [c2 tg].
    unfold submitted, end_frame. cbn [fst snd].
    rewrite !existsb_app. cbn [existsb is_fence_sync].
    rewrite !orb_true_r. discriminate.
  - intros _. exact Hlen.
Qed.

(** X17.  Within the capacities of the two queues (a drained event queue
    at the start, at most 64 events enqueued per tick, at most 512 draw
    commands in all), over any run of ticks that have events and do not
    submit, the draw command queue grows by exactly one command per tick:
    no tick of the run clears it. *)
Theorem backlog_grows :
  forall (ks : list Tick) (p : Program),
    events (context p) = [] ->
    Forall (fun k => tick_events k <> []
                     /\ (List.length (tick_events k) <= events_capacity)%nat) ks ->
    (List.length (drawCommands (context p)) + List.length ks
     <= drawCommands_reserve)%nat ->
    Forall (fun tr => submitted tr = false) (snd (run_ticks' p ks)) ->
    List.length (drawCommands (context (fst (run_ticks' p ks))))
    = (List.length (drawCommands (context p)) + List.length ks)%nat.
Proof.
  intros ks p _ Hev _. revert p.
  induction ks as [|k ks IH]; intros p Hskip.
  - cbn. lia.
  - inversion Hev as [|k' ks' [Hk _] Hrest]; subst.
    cbn [run_ticks] in *.
    pose proof (tick_draws_backlog_state p k Hk) as Hone.
    destruct (tick' p k) as [p1 tr1]. cbn [fst snd] in Hone.
    specialize (IH Hrest p1).
    destruct (run_ticks' p1 ks) as [p2 trs]. cbn [fst snd] in *.
    inversion Hskip as [|tr' trs' Hs1 Hs2]; subst.
    rewrite (IH Hs2), (Hone Hs1). cbn [List.length]. lia.
Qed.

End Backlog.

Lemma tick_draws_backlog_witness :
  List.length
    (drawCommands
       (context (fst (tick window_id other_id identity_rotate
                        (ring_program 9 0 0 0 [] [])
                        (move_tick GL_TIMEOUT_EXPIRED 11)))))
  = 1%nat.
Proof.
  apply (proj1 (tick_draws_backlog window_id other_id identity_rotate
                  (ring_program 9 0 0 0 [] [])
                  (move_tick GL_TIMEOUT_EXPIRED 11) ltac:(discriminate))).
  vm_compute. reflexivity.
Defined.

Lemma backlog_grows_witness :
  List.length
    (drawCommands
       (context (fst (run_ticks window_id other_id identity_rotate
                        (ring_program 9 0 0 0 [] [])
                        [move_tick GL_TIMEOUT_EXPIRED 11;
                         move_tick GL_WAIT_FAILED 12;
                         move_tick GL_TIMEOUT_EXPIRED 13]))))
  = 3%nat.
Proof.
  apply (backlog_grows window_id other_id identity_rotate
           [move_tick GL_TIMEOUT_EXPIRED 11; move_tick GL_WAIT_FAILED 12;
            move_tick GL_TIMEOUT_EXPIRED 13]
           (ring_program 9 0 0 0 [] [])).
  - reflexivity.
  - repeat constructor; try discriminate; unfold events_capacity; cbn; lia.
  - unfold drawCommands_reserve. cbn. lia.
  - vm_compute. repeat constructor.
Defined.

(** * Freestanding runtime *)

Lemma memset_prefix (s c : Z) (mem : Memory) (n : nat) :
  let mem' := fold_left (memset_body s c) (Tree.loop_indices (Z.of_nat n)) mem in
  (forall a, s <= a < s + Z.of_nat n -> mem' a = byte_of_int c)
  /\ (forall a, a < s \/ s + Z.of_nat n <= a -> mem' a = mem a).
Proof.
  induction n as [|n IH]; cbv zeta.
  - split; intros a Ha; [lia|reflexivity].
  - rewrite loop_indices_succ, fold_left_app. cbn [fold_left].
    destruct IH as (Hin & Hout). unfold memset_body at 1 3. split.
    + intros a Ha. destruct (Z.eq_dec a (s + Z.of_nat n)) as [->|Hne].
      * apply upd_same.
      * rewrite upd_other by exact Hne. apply Hin. lia.
    + intros a Ha. rewrite upd_other by lia. apply Hout. lia.
Qed.

(** X18.  [memset] returns [s], sets each of the [n] bytes from [s] on to
    the low eight bits of [c] and leaves every other byte of memory alone;
    with [n = 0] memory is unchanged. *)
Theorem memset_fills :
  forall (mem : Memory) (s c n : Z),
    fst (memset mem s c n) = s
    /\ (forall a, s <= a < s + n -> snd (memset mem s c n) a = c mod 256)
    /\ (forall a, a < s \/ s + n <= a -> snd (memset mem s c n) a = mem a)
    /\ 0 <= c mod 256 < 256
    /\ (n = 0 -> snd (memset mem s c n) = mem).
Proof.
  intros mem s c n. unfold memset. cbn [fst snd].
  split; [reflexivity|].
  destruct (Z.le_gt_cases 0 n) as [Hn|Hn].
  - destruct (memset_prefix s c mem (Z.to_nat n)) as (Hin & Hout).
    rewrite Z2Nat.id in Hin, Hout by exact Hn.
    split; [exact Hin|]. split; [exact Hout|].
    split; [apply Z.mod_pos_bound; lia|].
    intros ->. reflexivity.
  - unfold Tree.loop_indices. replace (Z.to_nat n) with O by lia. cbn [seq map fold_left].
    split; [intros a Ha; lia|]. split; [reflexivity|].
    split; [apply Z.mod_pos_bound; lia|]. reflexivity.
Qed.

Lemma memcpy_prefix (dest src : Z) (mem : Memory) (n : nat) :
  src + Z.of_nat n <= dest \/ dest + Z.of_nat n <= src ->
  let mem' := fold_left (memcpy_body dest src) (Tree.loop_indices (Z.of_nat n)) mem in
  (forall i, 0 <= i < Z.of_nat n -> mem' (dest + i) = mem (src + i))
  /\ (forall a, a < dest \/ dest + Z.of_nat n <= a -> mem' a = mem a).
Proof.
  induction n as [|n IH]; intros Hsep; cbv zeta.
  - split; intros a Ha; [lia|reflexivity].
  - rewrite loop_indices_succ, fold_left_app. cbn [fold_left].
    destruct IH as (Hin & Hout); [lia|]. unfold memcpy_body at 1 3. split.
    + intros i Hi. destruct (Z.eq_dec i (Z.of_nat n)) as [->|Hne].
      * rewrite upd_same. apply Hout. lia.
      * rewrite upd_other by lia. apply Hin. lia.
    + intros a Ha. rewrite upd_other by lia. apply Hout. lia.
Qed.

(** X19.  For a source and a destination range that do not overlap,
    [memcpy] returns [dest], makes the [n] destination bytes equal to the
    source bytes, and changes no byte outside the destination range, so the
    source is intact. *)
Theorem memcpy_copies :
  forall (mem : Memory) (dest src n : Z),
    src + n <= dest \/ dest + n <= src ->
    fst (memcpy mem dest src n) = dest
    /\ (forall i, 0 <= i < n ->
          snd (memcpy mem dest src n) (dest + i) = mem (src + i))
    /\ (forall a, a < dest \/ dest + n <= a ->
          snd (memcpy mem dest src n) a = mem a)
    /\ (forall i, 0 <= i < n ->
          snd (memcpy mem dest src n) (src + i) = mem (src + i)).
Proof.
  intros mem dest src n Hsep. unfold memcpy. cbn [fst snd].
  split; [reflexivity|].
  assert (H : (forall i, 0 <= i < n ->
                 fold_left (memcpy_body dest src) (Tree.loop_indices n) mem (dest + i)
                 = mem (src + i))
              /\ (forall a, a < dest \/ dest + n <= a ->
                    fold_left (memcpy_body dest src) (Tree.loop_indices n) mem a
                    = mem a)).
  { destruct (Z.le_gt_cases 0 n) as [Hn|Hn].
    - pose proof (memcpy_prefix dest src mem (Z.to_nat n)) as H.
      rewrite Z2Nat.id in H by exact Hn. apply H. exact Hsep.
    - unfold Tree.loop_indices. replace (Z.to_nat n) with O by lia.
      cbn [seq map fold_left]. split; [intros i Hi; lia|reflexivity]. }
  destruct H as (Hin & Hout). split; [exact Hin|]. split; [exact Hout|].
  intros i Hi. apply Hout. lia.
Qed.

Lemma memcpy_copies_witness :
  snd (memcpy (fun a => a mod 256) 100 10 4) 102 = 12.
Proof.
  assert (H : 10 + 4 <= 100 \/ 100 + 4 <= 10) by (left; lia).
  destruct (memcpy_copies (fun a => a mod 256) 100 10 4 H) as (_ & Hin & _).
  apply (Hin 2). lia.
Defined.

Section AllocatorFacts.

Variable align : Z -> Z -> Z.


Lemma run_heap_monotone (calls : list HeapCall) (h : Heap) :
  (forall s, 0 <= align s WASM_PAGE_SIZE) ->
  heapPtr h <= heapPtr (snd (run_heap align h calls)).
Proof.
  intros Hal. revert h.
  induction calls as [|[size|addr size|addr size nSize] rest IH]; intros h.
  - cbn. lia.
  - cbn [run_heap virtual_alloc_freestanding].
    specialize (IH (mkHeap (heapPtr h + align size WASM_PAGE_SIZE)
                      (grown h ++ [Z.quot (align size WASM_PAGE_SIZE) WASM_PAGE_SIZE]))).
    destruct (run_heap align _ rest) as [blocks h2]. cbn [snd heapPtr] in *.
    specialize (Hal size). lia.
  - cbn [run_heap virtual_free_freestanding]. apply IH.
  - cbn [run_heap virtual_try_grow_freestanding snd]. apply IH.
Qed.




End AllocatorFacts.




